(** * Reel playlist viewer: embed resolver and playlist orchestration

    A shallow embedding of the two React components of the repository,
    [EmbeddedPlayer] (the embed target resolver) and [ViewPlaylist] (the
    playlist view: stepping, adding and removing reels, tag updates), with
    the properties the specification states about them.

    Conventions of the embedding.
    - A JavaScript string is a Rocq [string] holding its bytes in UTF-8
      (a lone surrogate as its three byte generalised encoding, lead byte
      0xED followed by a byte of at least 0xA0).
    - A JavaScript number used as an index is a [Z].
    - [T | null] and optional fields are [option T]; the truthiness tests of
      the source ([if (x)], [!x], [a || b]) are written out.
    - [useState] cells are fields of a record; a handler reads the values
      its closure captured (the state it starts from) and writes through the
      setters, in the order of the source.
    - [toast] and [console.error] append to a log kept in the state.
    - The answers of the remote store, the fresh identifier of [uuidv4()]
      and the clock of [new Date()] are arguments of the handler that uses
      them. A handler runs to completion against the state it started from:
      while [isLoading] is set the view renders the spinner alone, so no
      other handler can be fired during an [await]. *)

From Stdlib Require Import ZArith List String Ascii Bool Lia.
Import ListNotations.
Local Open Scope string_scope.
Local Open Scope Z_scope.

(* ================================================================== *)
(** ** JavaScript strings *)

Module JsString.

(** Truthiness of a [string | null] value: [null] and the empty string
    are falsy. *)
Definition truthy (v : option string) : bool :=
  match v with
  | None => false
  | Some EmptyString => false
  | Some (String _ _) => true
  end.

(** [a || b] on strings. *)
Definition or_else (a b : string) : string :=
  match a with
  | EmptyString => b
  | String _ _ => a
  end.

(** [a || b] where [a] may be [null]. *)
Definition opt_or_else (a : option string) (b : string) : string :=
  if truthy a then match a with Some s => s | None => b end else b.

Definition code (c : ascii) : N := N_of_ascii c.

Definition bytes (s : string) : list N := map code (list_ascii_of_string s).

Definition of_bytes (l : list N) : string :=
  string_of_list_ascii (map ascii_of_N l).

(** *** [String.prototype.trim]

    The white space and line terminators of ECMAScript, each by its UTF-8
    bytes: U+0009..U+000D, U+0020, U+00A0, U+1680, U+2000..U+200A, U+2028,
    U+2029, U+202F, U+205F, U+3000 and U+FEFF. *)
Definition whiteSpace : list (list N) :=
  [ [9]; [10]; [11]; [12]; [13]; [32];
    [194; 160];
    [225; 154; 128];
    [226; 128; 128]; [226; 128; 129]; [226; 128; 130]; [226; 128; 131];
    [226; 128; 132]; [226; 128; 133]; [226; 128; 134]; [226; 128; 135];
    [226; 128; 136]; [226; 128; 137]; [226; 128; 138];
    [226; 128; 168]; [226; 128; 169]; [226; 128; 175];
    [226; 129; 159];
    [227; 128; 128];
    [239; 187; 191] ]%N.

Fixpoint stripPrefix (p l : list N) : option (list N) :=
  match p, l with
  | [], _ => Some l
  | _ :: _, [] => None
  | a :: p', b :: l' => if (a =? b)%N then stripPrefix p' l' else None
  end.

Fixpoint stripAny (ps : list (list N)) (l : list N) : option (list N) :=
  match ps with
  | [] => None
  | p :: ps' =>
      match stripPrefix p l with
      | Some r => Some r
      | None => stripAny ps' l
      end
  end.

(** Drops the white space in front of [l]; [fuel] bounds the number of
    characters dropped, the length of [l] is enough. *)
Fixpoint dropWhile (ps : list (list N)) (fuel : nat) (l : list N) : list N :=
  match fuel with
  | O => l
  | S fuel' =>
      match stripAny ps l with
      | Some r => dropWhile ps fuel' r
      | None => l
      end
  end.

Definition trimStart (l : list N) : list N :=
  dropWhile whiteSpace (List.length l) l.

Definition trimEnd (l : list N) : list N :=
  rev (dropWhile (map (@rev N) whiteSpace) (List.length l) (rev l)).

Definition trim (s : string) : string :=
  of_bytes (trimEnd (trimStart (bytes s))).

(** *** [encodeURIComponent]

    Every byte of the UTF-8 encoding is written as [%XX] except the
    unreserved marks [A-Z a-z 0-9 - _ . ! ~ * ' ( )]; a lone surrogate
    raises [URIError], here [None]. *)
Definition between (lo hi n : N) : bool := ((lo <=? n) && (n <=? hi))%N.

Definition uriUnreserved (c : ascii) : bool :=
  let n := code c in
  between 65 90 n || between 97 122 n || between 48 57 n
  || existsb (N.eqb n) [45; 95; 46; 33; 126; 42; 39; 40; 41]%N.

Definition hexDigit (n : N) : ascii :=
  ascii_of_N (if (n <? 10)%N then 48 + n else 55 + n)%N.

Definition percentEncode (c : ascii) : string :=
  String "%" (String (hexDigit (code c / 16))
                (String (hexDigit (code c mod 16)) EmptyString)).

Fixpoint encodeBytes (s : string) : string :=
  match s with
  | EmptyString => EmptyString
  | String c r =>
      (if uriUnreserved c then String c EmptyString else percentEncode c)
      ++ encodeBytes r
  end.

Fixpoint hasLoneSurrogate (s : string) : bool :=
  match s with
  | EmptyString => false
  | String c r =>
      match r with
      | String d _ => (code c =? 237)%N && (160 <=? code d)%N
      | EmptyString => false
      end
      || hasLoneSurrogate r
  end.

Definition encodeURIComponent (s : string) : option string :=
  if hasLoneSurrogate s then None else Some (encodeBytes s).

(** *** [charAt(0).toUpperCase() + slice(1)]

    [toUpperCase] is modelled on the letters [a-z]; the platform names it
    is applied to are ASCII. *)
Definition toUpperCaseChar (c : ascii) : ascii :=
  if between 97 122 (code c) then ascii_of_N (code c - 32) else c.

Definition capitalize (s : string) : string :=
  match s with
  | EmptyString => EmptyString
  | String c r => String (toUpperCaseChar c) r
  end.

End JsString.

(* ================================================================== *)
(** ** Data model ([ReelItem], [Playlist], [Tag]) *)

(** A [Date], as milliseconds since the epoch. *)
Definition Date := Z.

(** [ReelItem]. [platform] is the string the record carries: the type
    [SocialPlatform] closes it to five values, and the resolver's [switch]
    still has a [default] branch for a value read from the store. *)
Record ReelItem := mkReel {
  reel_id : string;
  reel_title : string;
  reel_url : string;
  reel_platform : string;
  reel_author : string;
  reel_videoId : option string;
  reel_addedAt : Date
}.

Record Tag := mkTag {
  tag_id : string;
  tag_name : string;
  tag_color : option string
}.

Record Playlist := mkPlaylist {
  pl_id : string;
  pl_name : string;
  pl_description : option string;
  pl_logoUrl : option string;
  pl_reels : list ReelItem;
  pl_tags : list Tag;
  pl_createdAt : Date;
  pl_updatedAt : Date
}.

(** [{ ...playlist, reels }], [{ ...playlist, tags }] and
    [{ ...playlist, updatedAt }]. *)
Definition with_reels (p : Playlist) (rs : list ReelItem) : Playlist :=
  mkPlaylist (pl_id p) (pl_name p) (pl_description p) (pl_logoUrl p)
             rs (pl_tags p) (pl_createdAt p) (pl_updatedAt p).

Definition with_tags (p : Playlist) (ts : list Tag) : Playlist :=
  mkPlaylist (pl_id p) (pl_name p) (pl_description p) (pl_logoUrl p)
             (pl_reels p) ts (pl_createdAt p) (pl_updatedAt p).

Definition with_updatedAt (p : Playlist) (d : Date) : Playlist :=
  mkPlaylist (pl_id p) (pl_name p) (pl_description p) (pl_logoUrl p)
             (pl_reels p) (pl_tags p) (pl_createdAt p) d.

(* ================================================================== *)
(** ** Handlers: state, exceptions, [try] / [catch] / [finally] *)

Inductive Exn :=
| StoreError (message : string)   (* the [error] of a store answer, thrown *)
| TypeError                       (* a property read on [null] *)
| URIError.                       (* [encodeURIComponent] on a lone surrogate *)

Inductive Effect :=
| ToastError (message : string)
| ToastSuccess (message : string)
| ConsoleError (message : string).

Inductive Outcome (A : Type) :=
| Done (a : A)
| Thrown (e : Exn).
Arguments Done {A} a.
Arguments Thrown {A} e.

Section Handler.
Context {St : Type}.

Definition M (A : Type) : Type := St -> Outcome A * St.

Definition ret {A} (a : A) : M A := fun s => (Done a, s).

Definition bind {A B} (m : M A) (k : A -> M B) : M B :=
  fun s =>
    match m s with
    | (Done a, s') => k a s'
    | (Thrown e, s') => (Thrown e, s')
    end.

Definition throw {A} (e : Exn) : M A := fun s => (Thrown e, s).

(** A setter: [modify f] is a call such as [setError(v)]. *)
Definition modify (f : St -> St) : M unit := fun s => (Done tt, f s).

Definition try_catch {A} (body : M A) (handler : Exn -> M A) : M A :=
  fun s =>
    match body s with
    | (Done a, s') => (Done a, s')
    | (Thrown e, s') => handler e s'
    end.

Definition finally {A} (body : M A) (fin : M unit) : M A :=
  fun s =>
    match body s with
    | (r, s') =>
        match fin s' with
        | (Done _, s'') => (r, s'')
        | (Thrown e, s'') => (Thrown e, s'')
        end
    end.

(** The state a handler leaves. *)
Definition exec {A} (m : M A) (s : St) : St := snd (m s).
End Handler.
Arguments M St A : clear implicits.

Declare Scope handler_scope.
Delimit Scope handler_scope with handler.
Notation "x <- m ;; k" := (bind m (fun x => k))
  (at level 61, m at next level, right associativity) : handler_scope.
Notation "m ;; k" := (bind m (fun _ => k))
  (at level 61, right associativity) : handler_scope.
Local Open Scope handler_scope.

(* ================================================================== *)
(** ** [EmbeddedPlayer]: the embed target resolver *)

Module EmbeddedPlayer.
Import JsString.

(** The three [useState] cells of the component, and its console. *)
Record State := mkState {
  embedUrl : option string;
  error : option string;
  showFallback : bool;
  console : list Effect
}.

(** [useState(null)], [useState(null)], [useState(false)]. *)
Definition initial : State := mkState None None false [].

Definition setEmbedUrl (v : option string) : M State unit :=
  modify (fun s => mkState v (error s) (showFallback s) (console s)).

Definition setError (v : option string) : M State unit :=
  modify (fun s => mkState (embedUrl s) v (showFallback s) (console s)).

Definition setShowFallback (v : bool) : M State unit :=
  modify (fun s => mkState (embedUrl s) (error s) v (console s)).

Definition console_error (msg : string) : M State unit :=
  modify (fun s => mkState (embedUrl s) (error s) (showFallback s)
                           (console s ++ [ConsoleError msg])%list).

(** [${reel.videoId}] inside a template literal, under [if (reel.videoId)]. *)
Definition videoIdText (reel : ReelItem) : string :=
  match reel_videoId reel with
  | Some v => v
  | None => EmptyString
  end.

(** How the [switch] is left: by [break], with the value of the local
    [url], or by the [return] of the [default] branch. *)
Inductive Flow :=
| Break (url : option string)
| Return.

(** The [switch (reel.platform)] of [generateEmbedUrl]; [url] starts as
    [null] and each case assigns it under [if (reel.videoId)]. *)
Definition platformSwitch (reel : ReelItem) (isPlaying : bool) : M State Flow :=
  let platform := reel_platform reel in
  if String.eqb platform "youtube" then
    ret (Break
      (if truthy (reel_videoId reel)
       then Some ("https://www.youtube.com/embed/" ++ videoIdText reel
                  ++ "?autoplay=" ++ (if isPlaying then "1" else "0")
                  ++ "&rel=0&modestbranding=1")
       else None))
  else if String.eqb platform "instagram" then
    ret (Break
      (if truthy (reel_videoId reel)
       then Some ("https://www.instagram.com/p/" ++ videoIdText reel
                  ++ "/embed/")
       else None))
  else if String.eqb platform "tiktok" then
    ret (Break
      (if truthy (reel_videoId reel)
       then Some ("https://www.tiktok.com/embed/v2/" ++ videoIdText reel)
       else None))
  else if String.eqb platform "facebook" then
    if truthy (reel_videoId reel) then
      match encodeURIComponent (reel_url reel) with
      | Some href =>
          ret (Break (Some ("https://www.facebook.com/plugins/video.php?href="
                            ++ href ++ "&show_text=false&width=560")))
      | None => throw URIError
      end
    else ret (Break None)
  else if String.eqb platform "twitter" then
    setShowFallback true ;;
    ret (Break None)
  else
    setError (Some "Unsupported platform") ;;
    ret Return.

Definition generateEmbedUrl (reel : ReelItem) (isPlaying : bool)
    : M State unit :=
  setError None ;;
  setShowFallback false ;;
  try_catch
    (flow <- platformSwitch reel isPlaying ;;
     match flow with
     | Break url => setEmbedUrl url
     | Return => ret tt
     end)
    (fun err =>
       setError (Some "Failed to generate embed URL") ;;
       console_error "Embed URL generation error:").

Definition handleIframeError : M State unit :=
  setError (Some "Failed to load embedded content") ;;
  setShowFallback true.

(** [onLoad={() => setError(null)}]. *)
Definition handleIframeLoad : M State unit := setError None.

(** What the component returns: the error card, the fallback card (its
    heading, its copy, the label of its button) or the iframe. The
    button of either card calls [openInNewTab], which opens [opens]. *)
Inductive View :=
| ErrorCard (message opens : string)
| FallbackCard (heading message button opens : string)
| Iframe (src title : string).

Definition render (reel : ReelItem) (s : State) : View :=
  if truthy (error s) && negb (showFallback s) then
    ErrorCard (opt_or_else (error s) EmptyString) (reel_url reel)
  else if showFallback s || negb (truthy (embedUrl s)) then
    FallbackCard
      (or_else (reel_title reel) (reel_author reel))
      (if String.eqb (reel_platform reel) "twitter"
       then "Twitter videos require viewing on the original platform"
       else "Embedded player not available for this content")
      ("View on " ++ capitalize (reel_platform reel))
      (reel_url reel)
  else
    Iframe (opt_or_else (embedUrl s) EmptyString)
           (reel_platform reel ++ " video player").

(** The events of a mounted player: the effect on [[reel]] runs
    [generateEmbedUrl] when the reel changes, the iframe reports a
    failure or a load. *)
Inductive Event :=
| ReelChanged (reel : ReelItem) (isPlaying : bool)
| IframeFailed
| IframeLoaded.

Definition handle (e : Event) : M State unit :=
  match e with
  | ReelChanged reel isPlaying => generateEmbedUrl reel isPlaying
  | IframeFailed => handleIframeError
  | IframeLoaded => handleIframeLoad
  end.

(** The events that can reach a player showing [reel]: its iframe's. *)
Definition iframeEvent (e : Event) : bool :=
  match e with
  | ReelChanged _ _ => false
  | IframeFailed | IframeLoaded => true
  end.

Definition run (evs : list Event) (s : State) : State :=
  fold_left (fun s e => exec (handle e) s) evs s.

End EmbeddedPlayer.

(* ================================================================== *)
(** ** [ViewPlaylist]: the playlist view *)

Module ViewPlaylist.
Import JsString.

(** The [useState] cells of the view that its handlers read or write,
    the log of toasts and console messages, and the local store. *)
Record State := mkState {
  playlist : option Playlist;
  currentReelIndex : Z;
  isPlaying : bool;
  newReelUrl : string;
  userId : option string;
  isLoading : bool;
  selectedTags : list Tag;
  showTagManager : bool;
  log : list Effect;
  storage : list Playlist
}.

Definition setPlaylist (v : option Playlist) : M State unit :=
  modify (fun s => mkState v (currentReelIndex s) (isPlaying s) (newReelUrl s)
                     (userId s) (isLoading s) (selectedTags s)
                     (showTagManager s) (log s) (storage s)).

Definition setCurrentReelIndex (v : Z) : M State unit :=
  modify (fun s => mkState (playlist s) v (isPlaying s) (newReelUrl s)
                     (userId s) (isLoading s) (selectedTags s)
                     (showTagManager s) (log s) (storage s)).

Definition setIsPlaying (v : bool) : M State unit :=
  modify (fun s => mkState (playlist s) (currentReelIndex s) v (newReelUrl s)
                     (userId s) (isLoading s) (selectedTags s)
                     (showTagManager s) (log s) (storage s)).

Definition setNewReelUrl (v : string) : M State unit :=
  modify (fun s => mkState (playlist s) (currentReelIndex s) (isPlaying s) v
                     (userId s) (isLoading s) (selectedTags s)
                     (showTagManager s) (log s) (storage s)).

Definition setIsLoading (v : bool) : M State unit :=
  modify (fun s => mkState (playlist s) (currentReelIndex s) (isPlaying s)
                     (newReelUrl s) (userId s) v (selectedTags s)
                     (showTagManager s) (log s) (storage s)).

Definition setShowTagManager (v : bool) : M State unit :=
  modify (fun s => mkState (playlist s) (currentReelIndex s) (isPlaying s)
                     (newReelUrl s) (userId s) (isLoading s) (selectedTags s)
                     v (log s) (storage s)).

Definition emit (e : Effect) : M State unit :=
  modify (fun s => mkState (playlist s) (currentReelIndex s) (isPlaying s)
                     (newReelUrl s) (userId s) (isLoading s) (selectedTags s)
                     (showTagManager s) (log s ++ [e])%list (storage s)).

Definition toast_error (msg : string) : M State unit := emit (ToastError msg).
Definition toast_success (msg : string) : M State unit :=
  emit (ToastSuccess msg).
Definition console_error (msg : string) : M State unit :=
  emit (ConsoleError msg).

(** Modelled from the spec: [getPlaylistsFromStorage] and
    [savePlaylistsToStorage] of [lib/utils] are not among the sources; the
    local store is a blob holding the array of all playlists, read whole
    and written whole. *)
Definition getPlaylistsFromStorage : M State (list Playlist) :=
  fun s => (Done (storage s), s).

Definition savePlaylistsToStorage (ps : list Playlist) : M State unit :=
  modify (fun s => mkState (playlist s) (currentReelIndex s) (isPlaying s)
                     (newReelUrl s) (userId s) (isLoading s) (selectedTags s)
                     (showTagManager s) (log s) ps).

(** [playlists.map(p => p.id === playlist.id ? updatedPlaylist : p)]. *)
Definition replacePlaylist (updated : Playlist) (key : string)
    (ps : list Playlist) : list Playlist :=
  map (fun p => if String.eqb (pl_id p) key then updated else p) ps.

(** The answer of the remote store to a request: [{ data, error }]. *)
Record Answer (A : Type) := mkAnswer {
  data : option A;
  error : option string
}.
Arguments mkAnswer {A} data error.
Arguments data {A} a.
Arguments error {A} a.

(** A row of the table [reels] as [insert(...).select().single()] returns
    it; [created_at] is kept as the [Date] that [new Date(data.created_at)]
    makes of it. *)
Record ReelRow := mkRow {
  row_id : string;
  row_title : string;
  row_url : string;
  row_platform : string;
  row_author : string;
  row_created_at : Date
}.

(** [{ ...data, videoId, addedAt: new Date(data.created_at) }]. *)
Definition reelOfRow (row : ReelRow) (videoId : option string) : ReelItem :=
  mkReel (row_id row) (row_title row) (row_url row) (row_platform row)
         (row_author row) videoId (row_created_at row).

(** [if (error) throw error]. *)
Definition throwIfError (e : option string) : M State unit :=
  match e with
  | Some msg => throw (StoreError msg)
  | None => ret tt
  end.

(** [playlist.reels.length]. *)
Definition reelCount (p : Playlist) : Z := Z.of_nat (List.length (pl_reels p)).

Definition playPause : M State unit :=
  fun s0 => setIsPlaying (negb (isPlaying s0)) s0.

Definition nextReel : M State unit :=
  fun s0 =>
    match playlist s0 with
    | None => ret tt s0
    | Some pl =>
        if reelCount pl =? 0 then ret tt s0
        else
          let nextIndex :=
            if currentReelIndex s0 <? reelCount pl - 1
            then currentReelIndex s0 + 1 else 0 in
          (setCurrentReelIndex nextIndex ;;
           setIsPlaying false) s0
    end.

Definition prevReel : M State unit :=
  fun s0 =>
    match playlist s0 with
    | None => ret tt s0
    | Some pl =>
        if reelCount pl =? 0 then ret tt s0
        else
          let prevIndex :=
            if currentReelIndex s0 >? 0
            then currentReelIndex s0 - 1 else reelCount pl - 1 in
          (setCurrentReelIndex prevIndex ;;
           setIsPlaying false) s0
    end.

(** The [onClick] of a card of the list, at position [index]. *)
Definition selectReel (index : Z) : M State unit :=
  setCurrentReelIndex index ;;
  setIsPlaying false.

(** [playlist.reels.filter(reel => reel.id !== reelId)]. *)
Definition withoutReel (reelId : string) (rs : list ReelItem) : list ReelItem :=
  filter (fun reel => negb (String.eqb (reel_id reel) reelId)) rs.

(** [if (currentReelIndex >= updatedReels.length)
       setCurrentReelIndex(Math.max(0, updatedReels.length - 1))]. *)
Definition adjustIndex (currentReelIndex : Z) (updatedReels : list ReelItem)
    : M State unit :=
  if currentReelIndex >=? Z.of_nat (List.length updatedReels)
  then setCurrentReelIndex (Z.max 0 (Z.of_nat (List.length updatedReels) - 1))
  else ret tt.

(** [removeReel(reelId)]. [deleteError] is the [error] of the answer to
    the remote delete, [now] the [new Date()] of the local branch. *)
Definition removeReel (reelId : string) (deleteError : option string)
    (now : Date) : M State unit :=
  fun s0 =>
    match playlist s0 with
    | None => ret tt s0
    | Some pl =>
        (setIsLoading true ;;
         finally
           (try_catch
              ((if truthy (userId s0) then
                  throwIfError deleteError ;;
                  let updatedReels := withoutReel reelId (pl_reels pl) in
                  adjustIndex (currentReelIndex s0) updatedReels ;;
                  setPlaylist (Some (with_reels pl updatedReels))
                else
                  let updatedReels := withoutReel reelId (pl_reels pl) in
                  adjustIndex (currentReelIndex s0) updatedReels ;;
                  let updatedPlaylist :=
                    with_updatedAt (with_reels pl updatedReels) now in
                  setPlaylist (Some updatedPlaylist) ;;
                  playlists <- getPlaylistsFromStorage ;;
                  savePlaylistsToStorage
                    (replacePlaylist updatedPlaylist (pl_id pl) playlists)) ;;
               toast_success "Reel removed from playlist")
              (fun err =>
                 console_error "Error removing reel:" ;;
                 toast_error "Failed to remove reel"))
           (setIsLoading false)) s0
    end.

(** [updatePlaylistTags()], with the [error] of the answers to the delete
    and to the insert of the tag relations. *)
Definition updatePlaylistTags (deleteError insertError : option string)
    : M State unit :=
  fun s0 =>
    match playlist s0 with
    | None => ret tt s0
    | Some pl =>
        if negb (truthy (userId s0)) then ret tt s0
        else
          (setIsLoading true ;;
           finally
             (try_catch
                (throwIfError deleteError ;;
                 (if (Z.of_nat (List.length (selectedTags s0)) >? 0)
                  then throwIfError insertError
                  else ret tt) ;;
                 setPlaylist (Some (with_tags pl (selectedTags s0))) ;;
                 toast_success "Tags updated" ;;
                 setShowTagManager false)
                (fun err =>
                   console_error "Error updating tags:" ;;
                   toast_error "Failed to update tags"))
             (setIsLoading false)) s0
    end.

Section AddReel.
(** [detectPlatform], [extractAuthor] and [extractVideoId] of [lib/utils]
    are not among the sources: [addReel] is stated over any three
    functions of their types. *)
Variable detectPlatform : string -> option string.
Variable extractAuthor : string -> string -> option string.
Variable extractVideoId : string -> string -> option string.

(** [addReel()]. [answer] is the answer of the remote store to the
    insert; [uuid] is [uuidv4()], [addedAt] and [updatedAt] the two
    [new Date()] of the local branch. *)
Definition addReel (answer : Answer ReelRow) (uuid : string)
    (addedAt updatedAt : Date) : M State unit :=
  fun s0 =>
    match playlist s0 with
    | None => toast_error "Please enter a valid URL" s0
    | Some pl =>
        if negb (truthy (Some (trim (newReelUrl s0)))) then
          toast_error "Please enter a valid URL" s0
        else
          match detectPlatform (newReelUrl s0) with
          | None => toast_error "Unsupported platform or invalid URL" s0
          | Some EmptyString =>
              toast_error "Unsupported platform or invalid URL" s0
          | Some platform =>
              let author :=
                opt_or_else (extractAuthor (newReelUrl s0) platform)
                            (platform ++ " user") in
              let videoId := extractVideoId (newReelUrl s0) platform in
              (setIsLoading true ;;
               finally
                 (try_catch
                    ((if truthy (userId s0) then
                        throwIfError (error answer) ;;
                        match data answer with
                        | None => throw TypeError
                        | Some row =>
                            let newReel := reelOfRow row videoId in
                            let updatedPlaylist :=
                              with_reels pl (pl_reels pl ++ [newReel])%list in
                            setPlaylist (Some updatedPlaylist)
                        end
                      else
                        let newReel :=
                          mkReel uuid author (newReelUrl s0) platform
                                 author videoId addedAt in
                        let updatedPlaylist :=
                          with_updatedAt
                            (with_reels pl (pl_reels pl ++ [newReel])%list)
                            updatedAt in
                        setPlaylist (Some updatedPlaylist) ;;
                        playlists <- getPlaylistsFromStorage ;;
                        savePlaylistsToStorage
                          (replacePlaylist updatedPlaylist (pl_id pl)
                                           playlists)) ;;
                     setNewReelUrl EmptyString ;;
                     toast_success "Reel added to playlist")
                    (fun err =>
                       console_error "Error adding reel:" ;;
                       toast_error "Failed to add reel"))
                 (setIsLoading false)) s0
          end
    end.
End AddReel.

End ViewPlaylist.

(* ================================================================== *)
(** ** Notions the properties are stated with *)

Module PlaylistSpec.
Import JsString ViewPlaylist.

(** The reel sequence of the view: that of its playlist, empty while no
    playlist is loaded. *)
Definition reelsOf (s : State) : list ReelItem :=
  match playlist s with
  | Some pl => pl_reels pl
  | None => []
  end.

(** N, the number of reels. *)
Definition count (s : State) : Z := Z.of_nat (List.length (reelsOf s)).

(** The current index lies in [[0, max(0, N-1)]]. *)
Definition inBounds (s : State) : Prop :=
  0 <= currentReelIndex s <= Z.max 0 (count s - 1).

(** The view is in remote mode when a user identity is present. *)
Definition remoteMode (s : State) : bool := truthy (userId s).

(** The removal is carried out: local mode, or a remote delete that
    answers without an error. *)
Definition removalDone (s : State) (deleteError : option string) : Prop :=
  remoteMode s = false \/ deleteError = None.

(** The identifiers of a reel sequence. *)
Definition ids (rs : list ReelItem) : list string := map reel_id rs.

(** What a handler appended to the log. *)
Definition logged (s s' : State) (es : list Effect) : Prop :=
  log s' = (log s ++ es)%list.

(** The in-memory playlist state: the playlist, the current index and
    the play intent. *)
Definition sameMemory (s s' : State) : Prop :=
  playlist s' = playlist s
  /\ currentReelIndex s' = currentReelIndex s
  /\ isPlaying s' = isPlaying s.

(** The index [removeReel] leaves, given the one it captured and the
    reels that remain. *)
Definition clampAfter (index : Z) (updatedReels : list ReelItem) : Z :=
  if index >=? Z.of_nat (List.length updatedReels)
  then Z.max 0 (Z.of_nat (List.length updatedReels) - 1)
  else index.

(** The state after a handler that only reported [es] and, when it had
    raised the loading flag, lowered it again. *)
Definition reported (s : State) (loading : bool) (es : list Effect) : State :=
  mkState (playlist s) (currentReelIndex s) (isPlaying s) (newReelUrl s)
          (userId s) loading (selectedTags s) (showTagManager s)
          (log s ++ es)%list (storage s).

Section Adding.
Variable extractAuthor : string -> string -> option string.
Variable extractVideoId : string -> string -> option string.

(** The reel [addReel] builds in local mode. *)
Definition localReel (s : State) (platform uuid : string) (addedAt : Date)
    : ReelItem :=
  let author :=
    opt_or_else (extractAuthor (newReelUrl s) platform) (platform ++ " user") in
  mkReel uuid author (newReelUrl s) platform author
         (extractVideoId (newReelUrl s) platform) addedAt.
End Adding.

(** The ways [addReel] can end. *)
Inductive AddResult (s : State) (s' : State) : Prop :=
| Rejected (msg : string) :
    s' = reported s (isLoading s) [ToastError msg] -> AddResult s s'
| Failed :
    remoteMode s = true ->
    s' = reported s false [ConsoleError "Error adding reel:";
                           ToastError "Failed to add reel"] ->
    AddResult s s'
| Added (pl : Playlist) (newReel : ReelItem) :
    playlist s = Some pl ->
    reelsOf s' = (pl_reels pl ++ [newReel])%list ->
    currentReelIndex s' = currentReelIndex s ->
    isPlaying s' = isPlaying s ->
    logged s s' [ToastSuccess "Reel added to playlist"] ->
    AddResult s s'.
End PlaylistSpec.

Module PlayerSpec.
Import JsString EmbeddedPlayer.

(** The resolver computed [target] and the component shows the iframe on
    it. *)
Definition embedsAs (reel : ReelItem) (s : State) (target : string) : Prop :=
  embedUrl s = Some target
  /\ error s = None
  /\ showFallback s = false
  /\ render reel s = Iframe target (reel_platform reel ++ " video player").

(** The fallback card of a Twitter reel. *)
Definition twitterCard (reel : ReelItem) : View :=
  FallbackCard (or_else (reel_title reel) (reel_author reel))
               "Twitter videos require viewing on the original platform"
               "View on Twitter"
               (reel_url reel).

(** The state in which [generateEmbedUrl] starts its [try] block. *)
Definition cleared (s : State) : State :=
  mkState (embedUrl s) None false (console s).
End PlayerSpec.

(* ================================================================== *)
(** ** Sample data *)

Module Samples.
Import ViewPlaylist.

Definition reel (id platform : string) (videoId : option string) : ReelItem :=
  mkReel id "clip" ("https://example.org/" ++ id) platform "someone" videoId 0.

Definition yt1 : ReelItem := reel "yt1" "youtube" (Some "dQw4w9WgXcQ").
Definition ig1 : ReelItem := reel "ig1" "instagram" (Some "CxYz").
Definition tk1 : ReelItem := reel "tk1" "tiktok" (Some "7301").
Definition fb1 : ReelItem := reel "fb1" "facebook" (Some "42").
Definition tw1 : ReelItem := reel "tw1" "twitter" None.
Definition yt0 : ReelItem := reel "yt0" "youtube" (Some EmptyString).

(** A lone high surrogate, U+D800, by its three bytes. *)
Definition loneSurrogate : string :=
  String (ascii_of_N 237) (String (ascii_of_N 160)
    (String (ascii_of_N 128) EmptyString)).

(** A Facebook reel with an identifier, whose page URL holds a lone
    surrogate. *)
Definition fb0 : ReelItem :=
  mkReel "fb0" "clip" ("https://example.org/" ++ loneSurrogate) "facebook"
         "someone" (Some "10") 0.

Definition three : Playlist :=
  mkPlaylist "p1" "mix" None None [yt1; ig1; tk1] [] 0 0.

Definition none : Playlist := mkPlaylist "p0" "empty" None None [] [] 0 0.

Definition mood : Tag := mkTag "t1" "mood" None.

(** A view showing [pl] with [url] typed in the input, in local mode (no
    user) or in remote mode. *)
Definition viewOf (pl : Playlist) (user : option string) (index : Z)
    (playing : bool) (url : string) : State :=
  mkState (Some pl) index playing url user false [mood] false [] [pl].

Definition view (user : option string) (index : Z) (playing : bool) : State :=
  viewOf three user index playing "https://youtu.be/abc".

Definition row : ReelRow :=
  mkRow "r9" "someone" "https://youtu.be/abc" "youtube" "someone" 5.

(** Stand-ins for the helpers of [lib/utils]. *)
Definition detect (url : string) : option string :=
  if String.prefix "https://youtu.be/" url then Some "youtube" else None.
Definition author (url platform : string) : option string := None.
Definition video (url platform : string) : option string := Some "abc".
End Samples.

(* ================================================================== *)
(** ** [ViewPlaylist]: loading, sharing, and what the view shows *)

Module ViewPlaylistPage.
Import JsString ViewPlaylist.

Definition setSelectedTags (v : list Tag) : M State unit :=
  modify (fun s => mkState (playlist s) (currentReelIndex s) (isPlaying s)
                     (newReelUrl s) (userId s) (isLoading s) v
                     (showTagManager s) (log s) (storage s)).

Definition setUserId (v : option string) : M State unit :=
  modify (fun s => mkState (playlist s) (currentReelIndex s) (isPlaying s)
                     (newReelUrl s) v (isLoading s) (selectedTags s)
                     (showTagManager s) (log s) (storage s)).

(** The cells of the view as [useState] initialises them, over the local
    store [stored]. *)
Definition mounted (stored : list Playlist) : State :=
  mkState None 0 false EmptyString None true [] false [] stored.

(** [playlist.reels[currentReelIndex]]: [undefined] off the array. *)
Definition reelAt (pl : Playlist) (index : Z) : option ReelItem :=
  if index <? 0 then None else nth_error (pl_reels pl) (Z.to_nat index).

(** [currentReel], where the view computes it (a playlist is loaded). *)
Definition currentReel (s : State) : option ReelItem :=
  match playlist s with
  | Some pl => reelAt pl (currentReelIndex s)
  | None => None
  end.

(** What the view returns: the spinner, the [Playlist not found] line,
    the [This playlist has no reels.] notice, or the grid, whose player
    shows [currentReel] or the [No reel selected] line. *)
Inductive Screen :=
| Spinner
| PlaylistNotFound
| NoReels
| Player (reel : ReelItem) (isPlaying : bool)
| NoReelSelected.

Definition screen (s : State) : Screen :=
  if isLoading s then Spinner
  else
    match playlist s with
    | None => PlaylistNotFound
    | Some pl =>
        if reelCount pl =? 0 then NoReels
        else
          match reelAt pl (currentReelIndex s) with
          | Some reel => Player reel (isPlaying s)
          | None => NoReelSelected
          end
    end.

(** The view within the browser: its cell [isCopied], the paths handed to
    [navigate], and the clipboard. *)
Record Page := mkPage {
  ui : State;
  isCopied : bool;
  navigations : list string;
  clipboard : option string
}.

(** A handler of the view, run within the page. *)
Definition onUi {A} (m : M State A) : M Page A :=
  fun p =>
    match m (ui p) with
    | (r, s') => (r, mkPage s' (isCopied p) (navigations p) (clipboard p))
    end.

Definition setIsCopied (v : bool) : M Page unit :=
  modify (fun p => mkPage (ui p) v (navigations p) (clipboard p)).

Definition navigate (path : string) : M Page unit :=
  modify (fun p => mkPage (ui p) (isCopied p) (navigations p ++ [path])%list
                     (clipboard p)).

(** Modelled from the spec: [copyToClipboard] of [lib/utils] is not among
    the sources; it puts the text on the clipboard or rejects, here with
    the exception [failure] when there is one. *)
Definition copyToClipboard (text : string) (failure : option Exn) : M Page unit :=
  match failure with
  | Some e => throw e
  | None => modify (fun p => mkPage (ui p) (isCopied p) (navigations p)
                               (Some text))
  end.

(** [checkUser()]: [user] is the [id] of [data.session?.user], [None] when
    there is no session or no user; the test is on the user object, and
    the identifier is stored as it is. *)
Definition checkUser (user : option string) : M State unit :=
  match user with
  | Some id => setUserId (Some id)
  | None => ret tt
  end.

(** [sharePlaylist()]; [origin] is [window.location.origin]. *)
Definition sharePlaylist (origin : string) (failure : option Exn) : M Page unit :=
  fun p0 =>
    match playlist (ui p0) with
    | None => ret tt p0
    | Some pl =>
        let shareUrl := origin ++ "/playlist/" ++ pl_id pl in
        try_catch
          (copyToClipboard shareUrl failure ;;
           setIsCopied true ;;
           onUi (toast_success "Playlist link copied to clipboard"))
          (fun err =>
             onUi (console_error "Failed to copy:") ;;
             onUi (toast_error "Failed to copy link")) p0
    end.

(** A row of the table [playlists]; the record spread [...playlistData]
    gives the playlist its fields, [created_at] and [updated_at] kept as
    the [Date]s made of them. *)
Record PlaylistRow := mkPlaylistRow {
  prow_id : string;
  prow_name : string;
  prow_description : option string;
  prow_logoUrl : option string;
  prow_created_at : Date;
  prow_updated_at : Date
}.

(** The answers of the remote store to the four requests of
    [fetchPlaylist]: the playlist, its reels, its tag relations (their
    [tag_id]s) and the tags. *)
Record Fetched := mkFetched {
  playlistAnswer : Answer PlaylistRow;
  reelsAnswer : Answer (list ReelRow);
  relationsAnswer : Answer (list string);
  tagsAnswer : Answer (list Tag)
}.

(** A property read or a method called on [data] when it is [null]. *)
Definition orTypeError {St A} (v : option A) : M St A :=
  match v with
  | Some a => ret a
  | None => throw TypeError
  end.

(** [if (error) throw error], within the page. *)
Definition throwIfErrorP (e : option string) : M Page unit :=
  match e with
  | Some msg => throw (StoreError msg)
  | None => ret tt
  end.

Section Loading.
Variable extractVideoId : string -> string -> option string.

(** [reelsData.map(reel => ({ ...reel, videoId, addedAt }))]. *)
Definition processReels (rows : list ReelRow) : list ReelItem :=
  map (fun row => reelOfRow row (extractVideoId (row_url row) (row_platform row)))
      rows.

(** [{ ...playlistData, reels, tags, createdAt, updatedAt }]. *)
Definition fullPlaylist (row : PlaylistRow) (reels : list ReelItem)
    (tags : list Tag) : Playlist :=
  mkPlaylist (prow_id row) (prow_name row) (prow_description row)
             (prow_logoUrl row) reels tags
             (prow_created_at row) (prow_updated_at row).

(** [fetchPlaylist(playlistId)], given the answers of the store. *)
Definition fetchPlaylist (answers : Fetched) : M Page unit :=
  finally
    (try_catch
       (throwIfErrorP (error (playlistAnswer answers)) ;;
        throwIfErrorP (error (reelsAnswer answers)) ;;
        throwIfErrorP (error (relationsAnswer answers)) ;;
        relations <- orTypeError (data (relationsAnswer answers)) ;;
        playlistTags <-
          (if (Z.of_nat (List.length relations) >? 0) then
             throwIfErrorP (error (tagsAnswer answers)) ;;
             ret (match data (tagsAnswer answers) with
                  | Some tags => tags
                  | None => []
                  end)
           else ret []) ;;
        rows <- orTypeError (data (reelsAnswer answers)) ;;
        let processedReels := processReels rows in
        row <- orTypeError (data (playlistAnswer answers)) ;;
        onUi (setPlaylist (Some (fullPlaylist row processedReels playlistTags))) ;;
        onUi (setSelectedTags playlistTags))
       (fun err =>
          onUi (console_error "Error fetching playlist:") ;;
          onUi (toast_error "Failed to load playlist") ;;
          navigate "/my-playlists"))
    (onUi (setIsLoading false)).

(** [playlists.find(p => p.id === id)]. *)
Definition findPlaylist (id : string) (ps : list Playlist) : option Playlist :=
  find (fun p => String.eqb (pl_id p) id) ps.

(** The effect on [[id, userId, navigate]]: [id] is the route parameter,
    [answers] what the store answers if it is asked. *)
Definition loadEffect (id : option string) (answers : Fetched) : M Page unit :=
  fun p0 =>
    if negb (truthy id) then ret tt p0
    else
      let id' := opt_or_else id EmptyString in
      if truthy (userId (ui p0)) then fetchPlaylist answers p0
      else
        (playlists <- onUi getPlaylistsFromStorage ;;
         match findPlaylist id' playlists with
         | Some foundPlaylist =>
             onUi (setPlaylist (Some foundPlaylist)) ;;
             onUi (setSelectedTags (pl_tags foundPlaylist)) ;;
             onUi (setIsLoading false)
         | None =>
             onUi (toast_error "Playlist not found") ;;
             navigate "/my-playlists"
         end) p0.
End Loading.

(** What the user can do on the loaded view. [Select n] is a click on the
    n-th card of the list, which exists when the list has an n-th reel;
    [TypeUrl] and [PickTags] are the [onChange] of the input and of the tag
    manager, [ToggleTagManager] the [Manage Tags] button. *)
Inductive Action :=
| PlayPause
| Next
| Previous
| Select (n : nat)
| TypeUrl (url : string)
| Add (answer : Answer ReelRow) (uuid : string) (addedAt updatedAt : Date)
| Remove (reelId : string) (deleteError : option string) (now : Date)
| PickTags (tags : list Tag)
| ToggleTagManager
| UpdateTags (deleteError insertError : option string).

Section Acting.
Variable detectPlatform : string -> option string.
Variable extractAuthor : string -> string -> option string.
Variable extractVideoId : string -> string -> option string.

Definition act (a : Action) : M State unit :=
  match a with
  | PlayPause => playPause
  | Next => nextReel
  | Previous => prevReel
  | Select n =>
      fun s0 =>
        match nth_error
                (match playlist s0 with Some pl => pl_reels pl | None => [] end)
                n with
        | Some _ => selectReel (Z.of_nat n) s0
        | None => ret tt s0
        end
  | TypeUrl url => setNewReelUrl url
  | Add answer uuid addedAt updatedAt =>
      addReel detectPlatform extractAuthor extractVideoId
              answer uuid addedAt updatedAt
  | Remove reelId deleteError now => removeReel reelId deleteError now
  | PickTags tags => setSelectedTags tags
  | ToggleTagManager =>
      fun s0 => setShowTagManager (negb (showTagManager s0)) s0
  | UpdateTags deleteError insertError =>
      updatePlaylistTags deleteError insertError
  end.

Definition acts (l : list Action) (s : State) : State :=
  fold_left (fun s a => exec (act a) s) l s.
End Acting.

(** A step repeated: [k] presses of a button. *)
Definition times (k : nat) (m : M State unit) (s : State) : State :=
  Nat.iter k (exec m) s.

(** The entry of the local store for the playlist in memory is that
    playlist. *)
Definition synced (s : State) : Prop :=
  forall pl, playlist s = Some pl ->
             find (fun p => String.eqb (pl_id p) (pl_id pl)) (storage s) = Some pl.

(** The stored playlists under another identifier than [key]. *)
Definition others (key : string) (ps : list Playlist) : list Playlist :=
  filter (fun p => negb (String.eqb (pl_id p) key)) ps.

(** A view in local mode showing the playlist stored under [key], memory
    and store agreeing on it. *)
Definition localView (key : string) (s : State) : Prop :=
  truthy (userId s) = false
  /\ (exists pl, playlist s = Some pl /\ pl_id pl = key)
  /\ synced s.

(** The view, as it is, within a page. *)
Definition pageOf (s : State) : Page := mkPage s false [] None.

(** The tag relations the store answered with, none when it gave no
    list. *)
Definition relationsOf (answers : Fetched) : list string :=
  match data (relationsAnswer answers) with
  | Some relations => relations
  | None => []
  end.

(** One of the requests of [fetchPlaylist] fails: it answers with an
    error, or without the data that is then read. The tags are requested
    only when there are tag relations. *)
Definition fetchFailed (answers : Fetched) : Prop :=
  error (playlistAnswer answers) <> None
  \/ error (reelsAnswer answers) <> None
  \/ error (relationsAnswer answers) <> None
  \/ data (relationsAnswer answers) = None
  \/ (relationsOf answers <> [] /\ error (tagsAnswer answers) <> None)
  \/ data (reelsAnswer answers) = None
  \/ data (playlistAnswer answers) = None.

(** The tags [fetchPlaylist] gives the playlist: [tagsData || []] when
    there are tag relations, none otherwise. *)
Definition fetchedTags (answers : Fetched) : list Tag :=
  match relationsOf answers with
  | [] => []
  | _ :: _ =>
      match data (tagsAnswer answers) with
      | Some tags => tags
      | None => []
      end
  end.

End ViewPlaylistPage.

Module PlayerMore.
Import JsString EmbeddedPlayer.

(** The fallback card of a reel. *)
Definition fallbackCard (reel : ReelItem) : View :=
  FallbackCard
    (or_else (reel_title reel) (reel_author reel))
    (if String.eqb (reel_platform reel) "twitter"
     then "Twitter videos require viewing on the original platform"
     else "Embedded player not available for this content")
    ("View on " ++ capitalize (reel_platform reel))
    (reel_url reel).

Definition isIframe (v : View) : bool :=
  match v with Iframe _ _ => true | _ => false end.

Definition isErrorCard (v : View) : bool :=
  match v with ErrorCard _ _ => true | _ => false end.

Definition platformIs (reel : ReelItem) (name : string) : bool :=
  String.eqb (reel_platform reel) name.

(** The platforms the [switch] has a case for. *)
Definition supported (reel : ReelItem) : bool :=
  existsb (platformIs reel)
          ["youtube"; "instagram"; "tiktok"; "facebook"; "twitter"].

(** The page URL of a Facebook reel with an identifier cannot be encoded. *)
Definition unencodable (reel : ReelItem) : bool :=
  platformIs reel "facebook" && truthy (reel_videoId reel)
  && match encodeURIComponent (reel_url reel) with
     | Some _ => false
     | None => true
     end.

(** The reels an iframe is shown for. *)
Definition embeddable (reel : ReelItem) : bool :=
  truthy (reel_videoId reel)
  && existsb (platformIs reel) ["youtube"; "instagram"; "tiktok"; "facebook"]
  && negb (unencodable reel).

(** Every character of [s] satisfies [ok]. *)
Fixpoint allChars (ok : ascii -> bool) (s : string) : bool :=
  match s with
  | EmptyString => true
  | String c r => ok c && allChars ok r
  end.

(** The characters [encodeURIComponent] writes: the unreserved marks and
    the percent sign. *)
Definition uriSafe (c : ascii) : bool :=
  uriUnreserved c || (code c =? 37)%N.

(** [c] occurs in [s]. *)
Fixpoint occurs (c : ascii) (s : string) : bool :=
  match s with
  | EmptyString => false
  | String d r => Ascii.eqb c d || occurs c r
  end.

(** The characters that delimit a URL and its query: [& = ? # / : +] and
    the space. *)
Definition delimiters : list ascii :=
  ["&"; "="; "?"; "#"; "/"; ":"; "+"; " "]%char.

End PlayerMore.

Module MoreSamples.
Import ViewPlaylist ViewPlaylistPage Samples.

(** The store answering every request of a fetch: two rows of reels, one
    tag relation and its tag. *)
Definition answered : Fetched :=
  mkFetched
    (mkAnswer (Some (mkPlaylistRow "p1" "mix" None None 1 2)) None)
    (mkAnswer (Some [row; mkRow "r10" "else" "https://youtu.be/xyz" "youtube"
                                "else" 6]) None)
    (mkAnswer (Some ["t1"]) None)
    (mkAnswer (Some [mood]) None).

(** The store refusing the tags of an otherwise answered fetch. *)
Definition refused : Fetched :=
  mkFetched (playlistAnswer answered) (reelsAnswer answered)
            (relationsAnswer answered) (mkAnswer None (Some "offline")).

(** What a user does in a row. *)
Definition session : list Action :=
  [Next;
   Add (mkAnswer None None) "n1" 1 2;
   Remove "yt1" None 3;
   Select 2;
   Previous;
   PlayPause;
   Remove "n1" None 4].
End MoreSamples.

(* ================================================================== *)
(** ** Properties of the playlist view *)

Section PlaylistView.
Import JsString ViewPlaylist PlaylistSpec.

Ltac run_handler :=
  cbv [exec bind ret modify throw try_catch finally
       setPlaylist setCurrentReelIndex setIsPlaying setNewReelUrl
       setIsLoading setShowTagManager emit toast_error toast_success
       console_error getPlaylistsFromStorage savePlaylistsToStorage
       throwIfError adjustIndex selectReel playPause];
  cbn [fst snd playlist currentReelIndex isPlaying newReelUrl userId
       isLoading selectedTags showTagManager log storage].

Lemma count_loaded (s : State) (pl : Playlist) :
  playlist s = Some pl -> count s = reelCount pl.
Proof. intros H. unfold count, reelsOf. now rewrite H. Qed.

Lemma nextReel_exec (s : State) (pl : Playlist) :
  playlist s = Some pl -> reelCount pl <> 0 ->
  exec nextReel s =
    mkState (playlist s)
            (if currentReelIndex s <? reelCount pl - 1
             then currentReelIndex s + 1 else 0)
            false (newReelUrl s) (userId s) (isLoading s) (selectedTags s)
            (showTagManager s) (log s) (storage s).
Proof.
  intros Hp Hn. unfold nextReel, exec. rewrite Hp.
  apply Z.eqb_neq in Hn. rewrite Hn. run_handler. now rewrite Hp.
Qed.

Lemma prevReel_exec (s : State) (pl : Playlist) :
  playlist s = Some pl -> reelCount pl <> 0 ->
  exec prevReel s =
    mkState (playlist s)
            (if currentReelIndex s >? 0
             then currentReelIndex s - 1 else reelCount pl - 1)
            false (newReelUrl s) (userId s) (isLoading s) (selectedTags s)
            (showTagManager s) (log s) (storage s).
Proof.
  intros Hp Hn. unfold prevReel, exec. rewrite Hp.
  apply Z.eqb_neq in Hn. rewrite Hn. run_handler. now rewrite Hp.
Qed.

Lemma step_empty (s : State) :
  count s = 0 -> exec nextReel s = s /\ exec prevReel s = s.
Proof.
  unfold count, reelsOf, nextReel, prevReel, exec, reelCount.
  destruct (playlist s) as [pl|]; [|now split].
  intros ->. now split.
Qed.

(** C1. On a playlist of N > 0 reels with the current index i in
    [[0, N-1]], [nextReel] sets the index to (i+1) mod N and [prevReel]
    sets it to (i-1+N) mod N, the reels staying as they are; on an empty
    playlist either call leaves the whole state as it is. *)
Theorem next_prev_circular (s : State) :
  (0 < count s -> 0 <= currentReelIndex s < count s ->
     currentReelIndex (exec nextReel s)
       = (currentReelIndex s + 1) mod count s
     /\ currentReelIndex (exec prevReel s)
       = (currentReelIndex s - 1 + count s) mod count s
     /\ reelsOf (exec nextReel s) = reelsOf s
     /\ reelsOf (exec prevReel s) = reelsOf s)
  /\ (count s = 0 -> exec nextReel s = s /\ exec prevReel s = s).
Proof.
  split; [|apply step_empty].
  intros Hpos Hi.
  destruct (playlist s) as [pl|] eqn:Hp;
    [|unfold count, reelsOf in Hpos; rewrite Hp in Hpos; simpl in Hpos; lia].
  pose proof (count_loaded s pl Hp) as Hc. rewrite Hc in *.
  assert (Hn : reelCount pl <> 0) by lia.
  rewrite (nextReel_exec s pl Hp Hn), (prevReel_exec s pl Hp Hn).
  unfold reelsOf; cbn [currentReelIndex playlist].
  repeat split.
  - destruct (Z.ltb_spec (currentReelIndex s) (reelCount pl - 1)).
    + rewrite Z.mod_small; lia.
    + replace (currentReelIndex s + 1) with (reelCount pl) by lia.
      now rewrite Z.mod_same by lia.
  - destruct (Z.gtb_spec (currentReelIndex s) 0).
    + replace (currentReelIndex s - 1 + reelCount pl)
        with (currentReelIndex s - 1 + 1 * reelCount pl) by lia.
      rewrite Z.mod_add by lia. rewrite Z.mod_small; lia.
    + replace (currentReelIndex s) with 0 by lia.
      rewrite Z.mod_small; lia.
Qed.

(** Witness of C1: the three-reel playlist at its last reel, and an empty
    playlist. *)
Lemma next_prev_circular_witness :
  (currentReelIndex (exec nextReel (Samples.view None 2 true)) = 0
   /\ currentReelIndex (exec prevReel (Samples.view None 2 true)) = 1)
  /\ exec nextReel (Samples.viewOf Samples.none None 0 true EmptyString)
     = Samples.viewOf Samples.none None 0 true EmptyString.
Proof.
  split.
  - destruct (proj1 (next_prev_circular (Samples.view None 2 true)))
      as (Hn & Hp & _).
    + reflexivity.
    + vm_compute. split; [discriminate | reflexivity].
    + split; [exact Hn | exact Hp].
  - apply (proj2 (next_prev_circular
                    (Samples.viewOf Samples.none None 0 true EmptyString))).
    reflexivity.
Defined.

(** *** What [removeReel] leaves *)

Lemma removeReel_done (s : State) (pl : Playlist) (reelId : string)
    (deleteError : option string) (now : Date) :
  playlist s = Some pl -> removalDone s deleteError ->
  let updatedReels := withoutReel reelId (pl_reels pl) in
  let updated :=
    if remoteMode s then with_reels pl updatedReels
    else with_updatedAt (with_reels pl updatedReels) now in
  exec (removeReel reelId deleteError now) s =
    mkState (Some updated)
            (clampAfter (currentReelIndex s) updatedReels)
            (isPlaying s) (newReelUrl s) (userId s) false (selectedTags s)
            (showTagManager s)
            (log s ++ [ToastSuccess "Reel removed from playlist"])%list
            (if remoteMode s then storage s
             else replacePlaylist updated (pl_id pl) (storage s)).
Proof.
  intros Hp Hdone. cbv zeta.
  unfold removalDone, remoteMode in Hdone.
  unfold removeReel, exec, remoteMode, clampAfter.
  rewrite Hp.
  destruct Hdone as [Hlocal | ->].
  - rewrite Hlocal. run_handler.
    destruct (_ >=? _); reflexivity.
  - destruct (truthy (userId s)); run_handler;
      destruct (_ >=? _); reflexivity.
Qed.

Lemma removeReel_failed (s : State) (pl : Playlist) (reelId e : string)
    (now : Date) :
  playlist s = Some pl -> remoteMode s = true ->
  exec (removeReel reelId (Some e) now) s =
    mkState (playlist s) (currentReelIndex s) (isPlaying s) (newReelUrl s)
            (userId s) false (selectedTags s) (showTagManager s)
            (log s ++ [ConsoleError "Error removing reel:";
                       ToastError "Failed to remove reel"])%list
            (storage s).
Proof.
  intros Hp Hremote. unfold removeReel, exec, remoteMode in *.
  rewrite Hp, Hremote. run_handler.
  now rewrite Hp, <- app_assoc.
Qed.

Lemma removeReel_unloaded (s : State) (reelId : string)
    (deleteError : option string) (now : Date) :
  playlist s = None -> exec (removeReel reelId deleteError now) s = s.
Proof. intros Hp. unfold removeReel, exec. now rewrite Hp. Qed.

Lemma clampAfter_bounds (index : Z) (rs : list ReelItem) :
  0 <= index ->
  0 <= clampAfter index rs <= Z.max 0 (Z.of_nat (List.length rs) - 1).
Proof.
  intros Hi. unfold clampAfter.
  destruct (Z.geb_spec index (Z.of_nat (List.length rs))); lia.
Qed.

Lemma withoutReel_absent (reelId : string) (rs : list ReelItem) :
  ~ In reelId (ids rs) -> withoutReel reelId rs = rs.
Proof.
  induction rs as [|r rs IH]; simpl; intros Hnot; [reflexivity|].
  destruct (String.eqb_spec (reel_id r) reelId) as [Heq|Hne]; simpl.
  - exfalso. apply Hnot. now left.
  - f_equal. apply IH. intros Hin. apply Hnot. now right.
Qed.

(** With pairwise distinct identifiers, removing by the identifier of a
    reel of the sequence removes that reel alone. *)
Lemma withoutReel_present (r : ReelItem) (rs : list ReelItem) :
  NoDup (ids rs) -> In r rs ->
  S (List.length (withoutReel (reel_id r) rs)) = List.length rs.
Proof.
  induction rs as [|x rs IH]; simpl; intros Hnd Hin; [contradiction|].
  inversion Hnd as [|? ? Hx Hnd']; subst.
  destruct (String.eqb_spec (reel_id x) (reel_id r)) as [Heq|Hne]; simpl.
  - f_equal. rewrite withoutReel_absent; [reflexivity|].
    now rewrite <- Heq.
  - f_equal. apply IH; [assumption|].
    destruct Hin as [->|Hin]; [contradiction | assumption].
Qed.

Lemma removeReel_inBounds (s : State) (reelId : string)
    (deleteError : option string) (now : Date) :
  inBounds s -> inBounds (exec (removeReel reelId deleteError now) s).
Proof.
  intros Hb. destruct (playlist s) as [pl|] eqn:Hp.
  - destruct (remoteMode s) eqn:Hm; [destruct deleteError as [e|]|].
    + rewrite (removeReel_failed s pl reelId e now Hp Hm).
      unfold inBounds, count, reelsOf in *. cbn [currentReelIndex playlist].
      exact Hb.
    + rewrite (removeReel_done s pl reelId None now Hp (or_intror eq_refl)).
      unfold inBounds, count, reelsOf. cbn [currentReelIndex playlist].
      rewrite Hm. cbn [pl_reels with_reels].
      apply clampAfter_bounds, Hb.
    + rewrite (removeReel_done s pl reelId deleteError now Hp (or_introl Hm)).
      unfold inBounds, count, reelsOf. cbn [currentReelIndex playlist].
      rewrite Hm. cbn [pl_reels with_reels with_updatedAt].
      apply clampAfter_bounds, Hb.
  - now rewrite removeReel_unloaded.
Qed.

(** C2. Removing the reel at the current index i of a playlist of N > 1
    reels (whose identifiers are pairwise distinct) leaves the index at
    min(i, N-2); and whichever reel is removed, the index is recomputed
    so as to lie within the shortened list: in [[0, N'-1]] when N' reels
    remain, 0 when none does. *)
Theorem removeReel_reclamps (s : State) (pl : Playlist) (reelId : string)
    (deleteError : option string) (now : Date) :
  playlist s = Some pl ->
  removalDone s deleteError ->
  0 <= currentReelIndex s ->
  let s' := exec (removeReel reelId deleteError now) s in
  (forall r,
     NoDup (ids (pl_reels pl)) ->
     1 < reelCount pl ->
     nth_error (pl_reels pl) (Z.to_nat (currentReelIndex s)) = Some r ->
     reelId = reel_id r ->
     currentReelIndex s' = Z.min (currentReelIndex s) (reelCount pl - 2))
  /\ reelsOf s' = withoutReel reelId (pl_reels pl)
  /\ (0 < count s' -> 0 <= currentReelIndex s' < count s')
  /\ (count s' = 0 -> currentReelIndex s' = 0).
Proof.
  intros Hp Hdone Hi s'. subst s'.
  rewrite (removeReel_done s pl reelId deleteError now Hp Hdone).
  unfold count, reelsOf. cbn [currentReelIndex playlist].
  set (rest := withoutReel reelId (pl_reels pl)).
  assert (Hreels : pl_reels (if remoteMode s
                             then with_reels pl rest
                             else with_updatedAt (with_reels pl rest) now)
                   = rest)
    by (destruct (remoteMode s); reflexivity).
  rewrite Hreels. subst rest.
  pose proof (clampAfter_bounds (currentReelIndex s)
                (withoutReel reelId (pl_reels pl)) Hi) as Hc.
  split; [|repeat split; lia].
  intros r Hnd HN Hnth ->.
  pose proof (withoutReel_present r (pl_reels pl) Hnd
                (nth_error_In _ _ Hnth)) as Hlen.
  assert (Hlt : (Z.to_nat (currentReelIndex s) < List.length (pl_reels pl))%nat)
    by (apply nth_error_Some; congruence).
  unfold clampAfter, reelCount in *.
  destruct (Z.geb_spec (currentReelIndex s)
              (Z.of_nat (List.length (withoutReel (reel_id r) (pl_reels pl)))));
    lia.
Qed.

(** Witness of C2: removing the last of three reels while it is current. *)
Lemma removeReel_reclamps_witness :
  currentReelIndex (exec (removeReel "tk1" None 9) (Samples.view None 2 false))
    = Z.min 2 (3 - 2).
Proof.
  refine (proj1
    (removeReel_reclamps (Samples.view None 2 false) Samples.three
       "tk1" None 9 eq_refl (or_introl eq_refl) _)
    Samples.tk1 _ _ eq_refl eq_refl).
  - discriminate.
  - repeat constructor; simpl; intuition discriminate.
  - reflexivity.
Defined.

(** *** What [addReel] leaves *)

Section Adding.
Variable detectPlatform : string -> option string.
Variable extractAuthor : string -> string -> option string.
Variable extractVideoId : string -> string -> option string.

Lemma addReel_unloaded s answer uuid d1 d2 :
  playlist s = None ->
  exec (addReel detectPlatform extractAuthor extractVideoId answer uuid d1 d2) s
    = reported s (isLoading s) [ToastError "Please enter a valid URL"].
Proof. intros Hp. unfold addReel, exec. now rewrite Hp. Qed.

Lemma addReel_blank s pl answer uuid d1 d2 :
  playlist s = Some pl -> trim (newReelUrl s) = EmptyString ->
  exec (addReel detectPlatform extractAuthor extractVideoId answer uuid d1 d2) s
    = reported s (isLoading s) [ToastError "Please enter a valid URL"].
Proof. intros Hp Ht. unfold addReel, exec. now rewrite Hp, Ht. Qed.

Lemma addReel_unclassified s pl answer uuid d1 d2 :
  playlist s = Some pl -> trim (newReelUrl s) <> EmptyString ->
  detectPlatform (newReelUrl s) = None
  \/ detectPlatform (newReelUrl s) = Some EmptyString ->
  exec (addReel detectPlatform extractAuthor extractVideoId answer uuid d1 d2) s
    = reported s (isLoading s)
               [ToastError "Unsupported platform or invalid URL"].
Proof.
  intros Hp Ht Hd. unfold addReel, exec. rewrite Hp.
  destruct (trim (newReelUrl s)); [congruence|]. cbn [truthy negb].
  now destruct Hd as [-> | ->].
Qed.

Lemma addReel_local s pl platform answer uuid d1 d2 :
  playlist s = Some pl -> trim (newReelUrl s) <> EmptyString ->
  detectPlatform (newReelUrl s) = Some platform ->
  platform <> EmptyString ->
  remoteMode s = false ->
  let updated :=
    with_updatedAt
      (with_reels pl
         (pl_reels pl
          ++ [localReel extractAuthor extractVideoId s platform uuid d1])%list)
      d2 in
  exec (addReel detectPlatform extractAuthor extractVideoId
                answer uuid d1 d2) s =
    mkState (Some updated) (currentReelIndex s) (isPlaying s) EmptyString
            (userId s) false (selectedTags s) (showTagManager s)
            (log s ++ [ToastSuccess "Reel added to playlist"])%list
            (replacePlaylist updated (pl_id pl) (storage s)).
Proof.
  intros Hp Ht Hd Hne Hm. unfold remoteMode in Hm.
  unfold addReel, exec, localReel. rewrite Hp, Hd.
  destruct (trim (newReelUrl s)); [congruence|]. cbn [truthy negb].
  destruct platform; [congruence|]. rewrite Hm.
  run_handler. reflexivity.
Qed.

Lemma addReel_remote s pl platform row uuid d1 d2 :
  playlist s = Some pl -> trim (newReelUrl s) <> EmptyString ->
  detectPlatform (newReelUrl s) = Some platform ->
  platform <> EmptyString ->
  remoteMode s = true ->
  let newReel := reelOfRow row (extractVideoId (newReelUrl s) platform) in
  exec (addReel detectPlatform extractAuthor extractVideoId
                (mkAnswer (Some row) None) uuid d1 d2) s =
    mkState (Some (with_reels pl (pl_reels pl ++ [newReel])%list))
            (currentReelIndex s) (isPlaying s) EmptyString
            (userId s) false (selectedTags s) (showTagManager s)
            (log s ++ [ToastSuccess "Reel added to playlist"])%list
            (storage s).
Proof.
  intros Hp Ht Hd Hne Hm. unfold remoteMode in Hm.
  unfold addReel, exec. rewrite Hp, Hd.
  destruct (trim (newReelUrl s)); [congruence|]. cbn [truthy negb].
  destruct platform; [congruence|]. rewrite Hm.
  run_handler. reflexivity.
Qed.

Lemma addReel_remote_failed s pl platform answer uuid d1 d2 :
  playlist s = Some pl -> trim (newReelUrl s) <> EmptyString ->
  detectPlatform (newReelUrl s) = Some platform ->
  platform <> EmptyString ->
  remoteMode s = true ->
  error answer <> None \/ data answer = None ->
  exec (addReel detectPlatform extractAuthor extractVideoId
                answer uuid d1 d2) s =
    reported s false [ConsoleError "Error adding reel:";
                      ToastError "Failed to add reel"].
Proof.
  intros Hp Ht Hd Hne Hm Hfail. unfold remoteMode in Hm.
  unfold addReel, exec, reported. rewrite Hp, Hd.
  destruct (trim (newReelUrl s)); [congruence|]. cbn [truthy negb].
  destruct platform; [congruence|]. rewrite Hm.
  destruct answer as [[row|] [e|]]; cbn [error data] in *;
    try (destruct Hfail; congruence);
    run_handler; now rewrite Hp, <- app_assoc.
Qed.

Lemma addReel_result s answer uuid d1 d2 :
  AddResult s (exec (addReel detectPlatform extractAuthor extractVideoId
                             answer uuid d1 d2) s).
Proof.
  destruct (playlist s) as [pl|] eqn:Hp;
    [|eapply Rejected, addReel_unloaded, Hp].
  destruct (string_dec (trim (newReelUrl s)) EmptyString) as [Ht|Ht];
    [eapply Rejected, addReel_blank; eassumption|].
  destruct (detectPlatform (newReelUrl s)) as [platform|] eqn:Hd;
    [|eapply Rejected, addReel_unclassified; eauto].
  destruct (string_dec platform EmptyString) as [->|Hne];
    [eapply Rejected, addReel_unclassified; eauto|].
  destruct (remoteMode s) eqn:Hm.
  - destruct answer as [[row|] [e|]].
    2: { rewrite (addReel_remote s pl platform row uuid d1 d2) by assumption.
         eapply Added; try reflexivity. exact Hp. }
    all: apply Failed; [assumption|];
      eapply addReel_remote_failed; eauto; cbn [error data];
      solve [left; discriminate | right; reflexivity].
  - rewrite (addReel_local s pl platform answer uuid d1 d2) by assumption.
    eapply Added; try reflexivity. exact Hp.
Qed.

Lemma addReel_inBounds s answer uuid d1 d2 :
  inBounds s ->
  inBounds (exec (addReel detectPlatform extractAuthor extractVideoId
                          answer uuid d1 d2) s).
Proof.
  intros Hb.
  destruct (addReel_result s answer uuid d1 d2)
    as [msg -> | _ -> | pl r Hp Hr Hi _ _]; try exact Hb.
  unfold inBounds, count in *. rewrite Hr, Hi.
  unfold reelsOf in Hb. rewrite Hp in Hb.
  rewrite length_app. cbn [List.length]. lia.
Qed.

Lemma addReel_isPlaying s answer uuid d1 d2 :
  isPlaying (exec (addReel detectPlatform extractAuthor extractVideoId
                           answer uuid d1 d2) s)
  = isPlaying s.
Proof.
  now destruct (addReel_result s answer uuid d1 d2)
    as [msg -> | _ -> | pl r _ _ _ Hplay _].
Qed.
Lemma nextReel_inBounds (s : State) :
  inBounds s -> inBounds (exec nextReel s).
Proof.
  intros Hb. destruct (Z.eq_dec (count s) 0) as [Hz|Hnz].
  - now rewrite (proj1 (step_empty s Hz)).
  - destruct (playlist s) as [pl|] eqn:Hp;
      [|unfold count, reelsOf in Hnz; rewrite Hp in Hnz; now elim Hnz].
    pose proof (count_loaded s pl Hp) as Hc. rewrite Hc in Hnz.
    rewrite (nextReel_exec s pl Hp Hnz).
    unfold inBounds, count, reelsOf in *. cbn [currentReelIndex playlist].
    rewrite Hp in *. fold (reelCount pl) in *.
    destruct (Z.ltb_spec (currentReelIndex s) (reelCount pl - 1)); lia.
Qed.

Lemma prevReel_inBounds (s : State) :
  inBounds s -> inBounds (exec prevReel s).
Proof.
  intros Hb. destruct (Z.eq_dec (count s) 0) as [Hz|Hnz].
  - now rewrite (proj2 (step_empty s Hz)).
  - destruct (playlist s) as [pl|] eqn:Hp;
      [|unfold count, reelsOf in Hnz; rewrite Hp in Hnz; now elim Hnz].
    pose proof (count_loaded s pl Hp) as Hc. rewrite Hc in Hnz.
    rewrite (prevReel_exec s pl Hp Hnz).
    unfold inBounds, count, reelsOf in *. cbn [currentReelIndex playlist].
    rewrite Hp in *. fold (reelCount pl) in *.
    assert (0 <= reelCount pl) by (unfold reelCount; lia).
    destruct (Z.gtb_spec (currentReelIndex s) 0); lia.
Qed.

Lemma removeReel_isPlaying (s : State) (reelId : string)
    (deleteError : option string) (now : Date) :
  isPlaying (exec (removeReel reelId deleteError now) s) = isPlaying s.
Proof.
  destruct (playlist s) as [pl|] eqn:Hp;
    [|now rewrite removeReel_unloaded].
  destruct (remoteMode s) eqn:Hm; [destruct deleteError as [e|]|].
  - now rewrite (removeReel_failed s pl reelId e now Hp Hm).
  - now rewrite (removeReel_done s pl reelId None now Hp (or_intror eq_refl)).
  - now rewrite (removeReel_done s pl reelId deleteError now Hp (or_introl Hm)).
Qed.

(** C9. When the current index lies in [[0, max(0, N-1)]], it still does,
    for the resulting reel list, after [nextReel], [prevReel], [addReel]
    and [removeReel]; after a removal that empties the list it is 0. *)
Theorem index_stays_in_bounds (s : State) :
  inBounds s ->
  inBounds (exec nextReel s)
  /\ inBounds (exec prevReel s)
  /\ (forall answer uuid addedAt updatedAt,
        inBounds (exec (addReel detectPlatform extractAuthor extractVideoId
                                answer uuid addedAt updatedAt) s))
  /\ (forall reelId deleteError now,
        let s' := exec (removeReel reelId deleteError now) s in
        inBounds s' /\ (count s' = 0 -> currentReelIndex s' = 0)).
Proof.
  intros Hb. split; [|split; [|split]].
  - now apply nextReel_inBounds.
  - now apply prevReel_inBounds.
  - intros. now apply addReel_inBounds.
  - intros reelId deleteError now s'.
    assert (Hb' : inBounds s') by now apply removeReel_inBounds.
    split; [exact Hb'|]. unfold inBounds in Hb'. lia.
Qed.

(** C3, as the code has it. With the index in bounds before, every add
    and every remove leaves it within the bounds of the resulting list
    ([removeReel] re-clamps it, [addReel] does not touch it), and neither
    changes the play intent. *)
Theorem add_remove_keep_bounds_and_intent (s : State) :
  inBounds s ->
  (forall answer uuid addedAt updatedAt,
     let s' := exec (addReel detectPlatform extractAuthor extractVideoId
                             answer uuid addedAt updatedAt) s in
     inBounds s'
     /\ currentReelIndex s' = currentReelIndex s
     /\ isPlaying s' = isPlaying s)
  /\ (forall reelId deleteError now,
        let s' := exec (removeReel reelId deleteError now) s in
        inBounds s' /\ isPlaying s' = isPlaying s).
Proof.
  intros Hb. split.
  - intros answer uuid d1 d2 s'. subst s'. split; [|split].
    + now apply addReel_inBounds.
    + now destruct (addReel_result s answer uuid d1 d2)
        as [msg -> | _ -> | pl r _ _ Hi _ _].
    + apply addReel_isPlaying.
  - intros reelId deleteError now s'. subst s'. split.
    + now apply removeReel_inBounds.
    + apply removeReel_isPlaying.
Qed.

(** C6. An add request whose URL is empty, or which [detectPlatform]
    classifies as no known platform, leaves the reel sequence as it is and
    reports an error; a request that goes through appends the new reel at
    the end of the sequence and reports success. *)
Theorem addReel_rejects_or_appends (s : State) (answer : Answer ReelRow)
    (uuid : string) (addedAt updatedAt : Date) :
  let s' := exec (addReel detectPlatform extractAuthor extractVideoId
                          answer uuid addedAt updatedAt) s in
  (newReelUrl s = EmptyString
   \/ trim (newReelUrl s) = EmptyString
   \/ detectPlatform (newReelUrl s) = None ->
     playlist s' = playlist s
     /\ reelsOf s' = reelsOf s
     /\ exists msg, logged s s' [ToastError msg])
  /\ (forall pl platform,
        playlist s = Some pl ->
        trim (newReelUrl s) <> EmptyString ->
        detectPlatform (newReelUrl s) = Some platform ->
        platform <> EmptyString ->
        (remoteMode s = false ->
           reelsOf s'
             = (pl_reels pl
                ++ [localReel extractAuthor extractVideoId s platform uuid
                              addedAt])%list
           /\ logged s s' [ToastSuccess "Reel added to playlist"])
        /\ (forall row,
              remoteMode s = true -> answer = mkAnswer (Some row) None ->
              reelsOf s'
                = (pl_reels pl
                   ++ [reelOfRow row
                         (extractVideoId (newReelUrl s) platform)])%list
              /\ logged s s' [ToastSuccess "Reel added to playlist"])).
Proof.
  intros s'. subst s'. split.
  - intros Hbad.
    assert (Hrej : exists msg,
               exec (addReel detectPlatform extractAuthor extractVideoId
                             answer uuid addedAt updatedAt) s
               = reported s (isLoading s) [ToastError msg]).
    { destruct (playlist s) as [pl|] eqn:Hp;
        [|eexists; apply addReel_unloaded, Hp].
      destruct (string_dec (trim (newReelUrl s)) EmptyString) as [Ht|Ht];
        [eexists; eapply addReel_blank; eassumption|].
      destruct Hbad as [He|[Ht'|Hd]];
        [rewrite He in Ht; now elim Ht | contradiction |].
      eexists. eapply addReel_unclassified; eauto. }
    destruct Hrej as [msg ->]. repeat split. now exists msg.
  - intros pl platform Hp Ht Hd Hne. split.
    + intros Hm.
      rewrite (addReel_local s pl platform answer uuid addedAt updatedAt)
        by assumption.
      now split.
    + intros row Hm ->.
      rewrite (addReel_remote s pl platform row uuid addedAt updatedAt)
        by assumption.
      now split.
Qed.

(** *** What [updatePlaylistTags] leaves *)

Lemma updatePlaylistTags_failed (s : State) (pl : Playlist)
    (deleteError insertError : option string) :
  playlist s = Some pl -> remoteMode s = true ->
  deleteError <> None \/ (selectedTags s <> [] /\ insertError <> None) ->
  exec (updatePlaylistTags deleteError insertError) s =
    reported s false [ConsoleError "Error updating tags:";
                      ToastError "Failed to update tags"].
Proof.
  intros Hp Hm Hfail. unfold remoteMode in Hm.
  unfold updatePlaylistTags, exec, reported. rewrite Hp, Hm. cbn [negb].
  destruct deleteError as [e|].
  - run_handler. now rewrite Hp, <- app_assoc.
  - destruct Hfail as [Hd | [Hsel Hi]]; [congruence|].
    destruct (selectedTags s) as [|t ts] eqn:Hs; [congruence|].
    destruct insertError as [e|]; [|congruence].
    cbn [List.length Z.of_nat Z.gtb Z.compare]. run_handler.
    now rewrite Hp, Hs, <- app_assoc.
Qed.

(** C5. In remote mode, when the call to the store fails, [addReel],
    [removeReel] and [updatePlaylistTags] leave the playlist, the current
    index and the play intent as they were and report an error toast; so
    the in-memory state is changed only when the store answered without an
    error. *)
Theorem remote_failure_keeps_memory (s : State) (pl : Playlist) :
  playlist s = Some pl ->
  remoteMode s = true ->
  (forall answer uuid addedAt updatedAt,
     let s' := exec (addReel detectPlatform extractAuthor extractVideoId
                             answer uuid addedAt updatedAt) s in
     (error answer <> None ->
        sameMemory s s'
        /\ exists es msg, logged s s' (es ++ [ToastError msg])%list)
     /\ (~ sameMemory s s' -> error answer = None))
  /\ (forall reelId deleteError now,
        let s' := exec (removeReel reelId deleteError now) s in
        (deleteError <> None ->
           sameMemory s s'
           /\ logged s s' [ConsoleError "Error removing reel:";
                           ToastError "Failed to remove reel"])
        /\ (~ sameMemory s s' -> deleteError = None))
  /\ (forall deleteError insertError,
        let s' := exec (updatePlaylistTags deleteError insertError) s in
        (deleteError <> None \/ (selectedTags s <> [] /\ insertError <> None) ->
           sameMemory s s'
           /\ logged s s' [ConsoleError "Error updating tags:";
                           ToastError "Failed to update tags"])
        /\ (~ sameMemory s s' ->
              deleteError = None
              /\ (selectedTags s <> [] -> insertError = None))).
Proof.
  intros Hp Hm. split; [|split].
  - intros answer uuid d1 d2 s'. subst s'.
    assert (Hfail : error answer <> None ->
              sameMemory s (exec (addReel detectPlatform extractAuthor
                                    extractVideoId answer uuid d1 d2) s)
              /\ exists es msg,
                   logged s (exec (addReel detectPlatform extractAuthor
                                     extractVideoId answer uuid d1 d2) s)
                          (es ++ [ToastError msg])%list).
    { intros He.
      destruct (string_dec (trim (newReelUrl s)) EmptyString) as [Ht|Ht].
      { rewrite (addReel_blank s pl answer uuid d1 d2 Hp Ht).
        split; [now repeat split|]. now exists [], "Please enter a valid URL". }
      destruct (detectPlatform (newReelUrl s)) as [platform|] eqn:Hd.
      2: { rewrite (addReel_unclassified s pl answer uuid d1 d2 Hp Ht
                      (or_introl Hd)).
           split; [now repeat split|].
           now exists [], "Unsupported platform or invalid URL". }
      destruct (string_dec platform EmptyString) as [->|Hne].
      { rewrite (addReel_unclassified s pl answer uuid d1 d2 Hp Ht
                   (or_intror Hd)).
        split; [now repeat split|].
        now exists [], "Unsupported platform or invalid URL". }
      rewrite (addReel_remote_failed s pl platform answer uuid d1 d2
                 Hp Ht Hd Hne Hm (or_introl He)).
      split; [now repeat split|].
      now exists [ConsoleError "Error adding reel:"], "Failed to add reel". }
    split; [exact Hfail|].
    intros Hchanged. destruct (error answer) as [e|] eqn:He; [|reflexivity].
    exfalso. apply Hchanged. apply Hfail. discriminate.
  - intros reelId deleteError now s'. subst s'.
    assert (Hfail : deleteError <> None ->
              sameMemory s (exec (removeReel reelId deleteError now) s)
              /\ logged s (exec (removeReel reelId deleteError now) s)
                   [ConsoleError "Error removing reel:";
                    ToastError "Failed to remove reel"]).
    { intros He. destruct deleteError as [e|]; [|congruence].
      rewrite (removeReel_failed s pl reelId e now Hp Hm).
      now repeat split. }
    split; [exact Hfail|].
    intros Hchanged. destruct deleteError as [e|]; [|reflexivity].
    exfalso. apply Hchanged. apply Hfail. discriminate.
  - intros deleteError insertError s'. subst s'.
    assert (Hfail :
              deleteError <> None
              \/ (selectedTags s <> [] /\ insertError <> None) ->
              sameMemory s (exec (updatePlaylistTags deleteError insertError) s)
              /\ logged s (exec (updatePlaylistTags deleteError insertError) s)
                   [ConsoleError "Error updating tags:";
                    ToastError "Failed to update tags"]).
    { intros He.
      rewrite (updatePlaylistTags_failed s pl deleteError insertError Hp Hm He).
      now repeat split. }
    split; [exact Hfail|].
    intros Hchanged. split.
    + destruct deleteError as [e|]; [|reflexivity].
      exfalso. apply Hchanged. apply Hfail. left. discriminate.
    + intros Hsel. destruct insertError as [e|]; [|reflexivity].
      exfalso. apply Hchanged. apply Hfail. right.
      split; [exact Hsel | discriminate].
Qed.

End Adding.

Lemma clampAfter_inBounds (s : State) (pl : Playlist) :
  playlist s = Some pl -> inBounds s ->
  clampAfter (currentReelIndex s) (pl_reels pl) = currentReelIndex s.
Proof.
  intros Hp Hb. unfold inBounds, count, reelsOf in Hb. rewrite Hp in Hb.
  unfold clampAfter.
  destruct (Z.geb_spec (currentReelIndex s)
              (Z.of_nat (List.length (pl_reels pl)))); lia.
Qed.

Lemma with_reels_same (pl : Playlist) : with_reels pl (pl_reels pl) = pl.
Proof. now destruct pl. Qed.

(** C10. Removing by an identifier that no reel of the sequence carries
    leaves the sequence and the current index as they are. In local mode
    the playlist is rewritten with a new [updatedAt] and nothing else, in
    remote mode it is the same playlist; and success is reported as for
    any removal (always in local mode, in remote mode when the store
    answers without an error). *)
Theorem removeReel_absent_id (s : State) (pl : Playlist) (reelId : string)
    (deleteError : option string) (now : Date) :
  playlist s = Some pl ->
  ~ In reelId (ids (pl_reels pl)) ->
  inBounds s ->
  let s' := exec (removeReel reelId deleteError now) s in
  reelsOf s' = pl_reels pl
  /\ currentReelIndex s' = currentReelIndex s
  /\ (remoteMode s = false ->
        playlist s' = Some (with_updatedAt pl now)
        /\ logged s s' [ToastSuccess "Reel removed from playlist"])
  /\ (remoteMode s = true -> deleteError = None ->
        playlist s' = Some pl
        /\ logged s s' [ToastSuccess "Reel removed from playlist"]).
Proof.
  intros Hp Habs Hb s'. subst s'.
  pose proof (withoutReel_absent reelId (pl_reels pl) Habs) as Hsame.
  pose proof (clampAfter_inBounds s pl Hp Hb) as Hclamp.
  destruct (remoteMode s) eqn:Hm; [destruct deleteError as [e|]|].
  - rewrite (removeReel_failed s pl reelId e now Hp Hm).
    unfold reelsOf. cbn [playlist currentReelIndex]. rewrite Hp.
    repeat split; discriminate.
  - rewrite (removeReel_done s pl reelId None now Hp (or_intror eq_refl)).
    unfold reelsOf, logged. cbn [playlist currentReelIndex log].
    rewrite Hm, Hsame, Hclamp, with_reels_same.
    repeat split; discriminate.
  - rewrite (removeReel_done s pl reelId deleteError now Hp (or_introl Hm)).
    unfold reelsOf, logged. cbn [playlist currentReelIndex log].
    rewrite Hm, Hsame, Hclamp, with_reels_same.
    repeat split; discriminate.
Qed.

End PlaylistView.

(* ================================================================== *)
(** ** Properties of the embed resolver *)

Section Player.
Import JsString EmbeddedPlayer PlayerSpec.

Ltac run_player :=
  cbv [exec bind ret modify throw try_catch finally setEmbedUrl setError
       setShowFallback console_error handleIframeError handleIframeLoad];
  cbn [fst snd embedUrl error showFallback console].

Lemma generate_twitter (reel : ReelItem) (isPlaying : bool) (s : State) :
  reel_platform reel = "twitter" ->
  exec (generateEmbedUrl reel isPlaying) s = mkState None None true (console s).
Proof.
  intros Hp. unfold generateEmbedUrl, platformSwitch. rewrite Hp.
  cbn [String.eqb Ascii.eqb Bool.eqb]. run_player. reflexivity.
Qed.

Lemma iframe_event_keeps_fallback (e : Event) (s : State) :
  iframeEvent e = true ->
  embedUrl s = None /\ showFallback s = true ->
  embedUrl (exec (handle e) s) = None
  /\ showFallback (exec (handle e) s) = true.
Proof.
  intros He [Hu Hf]. destruct e; [discriminate | |];
    cbn [handle]; run_player; auto.
Qed.

Lemma run_keeps_fallback (evs : list Event) (s : State) :
  forallb iframeEvent evs = true ->
  embedUrl s = None /\ showFallback s = true ->
  embedUrl (run evs s) = None /\ showFallback (run evs s) = true.
Proof.
  revert s. induction evs as [|e evs IH]; intros s Hall Hs; [exact Hs|].
  cbn [forallb] in Hall. apply andb_prop in Hall. destruct Hall as [He Hall].
  cbn [run fold_left]. apply IH; [exact Hall|].
  now apply iframe_event_keeps_fallback.
Qed.

Lemma render_fallback_twitter (reel : ReelItem) (s : State) :
  reel_platform reel = "twitter" -> showFallback s = true ->
  render reel s = twitterCard reel.
Proof.
  intros Hp Hf. unfold render, twitterCard. rewrite Hf, Hp.
  now rewrite andb_false_r.
Qed.

(** C4. For a reel whose platform is [twitter], whatever its [videoId],
    the resolver computes no embed target and raises the fallback flag,
    and the component shows the fallback card with the Twitter copy, the
    button [View on Twitter] and the external-open action; this remains so
    through any failures or loads the iframe could report. *)
Theorem twitter_never_embeds (reel : ReelItem) (isPlaying : bool) (s : State)
    (evs : list Event) :
  reel_platform reel = "twitter" ->
  forallb iframeEvent evs = true ->
  let resolved := exec (generateEmbedUrl reel isPlaying) s in
  embedUrl resolved = None
  /\ error resolved = None
  /\ showFallback resolved = true
  /\ embedUrl (run evs resolved) = None
  /\ render reel (run evs resolved) = twitterCard reel.
Proof.
  intros Hp Hevs resolved. subst resolved.
  rewrite (generate_twitter reel isPlaying s Hp).
  cbn [embedUrl error showFallback].
  destruct (run_keeps_fallback evs (mkState None None true (console s)) Hevs)
    as [Hu Hf]; [now split|].
  repeat split; [exact Hu|].
  now apply render_fallback_twitter.
Qed.

(** C7. When the active reel changes the resolver starts over: running
    it is running it from the state with the error and fallback flags
    cleared, so the flags it leaves, and what the component then shows, are
    the same whatever state the previous reel left. *)
Theorem reel_change_recomputes (reel : ReelItem) (isPlaying : bool)
    (s1 s2 : State) :
  let s1' := exec (handle (ReelChanged reel isPlaying)) s1 in
  let s2' := exec (handle (ReelChanged reel isPlaying)) s2 in
  s1' = exec (generateEmbedUrl reel isPlaying) (cleared s1)
  /\ error s1' = error s2'
  /\ showFallback s1' = showFallback s2'
  /\ render reel s1' = render reel s2'.
Proof.
  cbn [handle]. unfold generateEmbedUrl, platformSwitch, render, cleared.
  destruct (String.eqb (reel_platform reel) "youtube");
    [|destruct (String.eqb (reel_platform reel) "instagram");
      [|destruct (String.eqb (reel_platform reel) "tiktok");
        [|destruct (String.eqb (reel_platform reel) "facebook");
          [|destruct (String.eqb (reel_platform reel) "twitter")]]]];
    destruct (truthy (reel_videoId reel));
    try destruct (encodeURIComponent (reel_url reel));
    run_player; repeat split.
Qed.

Lemma truthy_some (v : string) : v <> EmptyString -> truthy (Some v) = true.
Proof. destruct v; [congruence | reflexivity]. Qed.

(** C8, as the code has it. For a reel whose [videoId] is neither [null]
    nor empty, the embed target is the fixed template of its platform
    filled with that identifier (YouTube, with the autoplay flag of the
    play intent; Instagram; TikTok); for Facebook, when the page URL can
    be URL-encoded ([encodeURIComponent] does not raise), it is the
    template filled with the URL-encoded page URL instead of the
    identifier. *)
Theorem embed_target_templates (reel : ReelItem) (v : string)
    (isPlaying : bool) (s : State) :
  reel_videoId reel = Some v ->
  v <> EmptyString ->
  let s' := exec (generateEmbedUrl reel isPlaying) s in
  (reel_platform reel = "youtube" ->
     embedsAs reel s'
       ("https://www.youtube.com/embed/" ++ v ++ "?autoplay="
        ++ (if isPlaying then "1" else "0") ++ "&rel=0&modestbranding=1"))
  /\ (reel_platform reel = "instagram" ->
        embedsAs reel s' ("https://www.instagram.com/p/" ++ v ++ "/embed/"))
  /\ (reel_platform reel = "tiktok" ->
        embedsAs reel s' ("https://www.tiktok.com/embed/v2/" ++ v))
  /\ (reel_platform reel = "facebook" ->
        forall href, encodeURIComponent (reel_url reel) = Some href ->
        embedsAs reel s'
          ("https://www.facebook.com/plugins/video.php?href=" ++ href
           ++ "&show_text=false&width=560")).
Proof.
  intros Hv Hne s'. subst s'.
  pose proof (truthy_some v Hne) as Ht.
  unfold embedsAs, generateEmbedUrl, platformSwitch, render, videoIdText.
  rewrite Hv, Ht.
  split; [|split; [|split]]; intros Hp; rewrite Hp;
    cbn [String.eqb Ascii.eqb Bool.eqb];
    try (intros href ->); run_player; repeat split.
Qed.

End Player.

(* ================================================================== *)
(** ** The properties at sample inputs *)

Section PlaylistViewSamples.
Import JsString ViewPlaylist PlaylistSpec Samples.

Ltac closed := vm_compute; repeat split; solve [reflexivity | discriminate].

(** Witness of C9: the three-reel playlist at its last reel. *)
Lemma index_stays_in_bounds_witness :
  inBounds (exec nextReel (view None 2 true))
  /\ inBounds (exec prevReel (view None 2 true))
  /\ inBounds (exec (addReel detect author video (mkAnswer None None)
                             "n1" 1 2) (view None 2 true))
  /\ inBounds (exec (removeReel "tk1" None 9) (view None 2 true)).
Proof.
  assert (Hb : inBounds (view None 2 true)) by closed.
  destruct (index_stays_in_bounds detect author video _ Hb)
    as (Hn & Hp & Ha & Hr).
  split; [exact Hn|]. split; [exact Hp|]. split.
  - exact (Ha (mkAnswer None None) "n1" 1 2).
  - exact (proj1 (Hr "tk1" None 9)).
Defined.

(** C3 as stated fails: with the play intent set, a successful add and a
    successful remove both leave it set. *)
Lemma add_remove_do_not_pause :
  (ids (reelsOf (exec (addReel detect author video (mkAnswer None None)
                               "n1" 1 2) (view None 0 true)))
     = ["yt1"; "ig1"; "tk1"; "n1"]
   /\ isPlaying (exec (addReel detect author video (mkAnswer None None)
                               "n1" 1 2) (view None 0 true)) <> false)
  /\ (ids (reelsOf (exec (removeReel "ig1" None 9) (view None 0 true)))
        = ["yt1"; "tk1"]
      /\ isPlaying (exec (removeReel "ig1" None 9) (view None 0 true))
         <> false).
Proof. closed. Qed.

(** Witness of C3 as amended. *)
Lemma add_remove_keep_bounds_and_intent_witness :
  isPlaying (exec (addReel detect author video (mkAnswer None None)
                           "n1" 1 2) (view None 2 true)) = true
  /\ inBounds (exec (removeReel "tk1" None 9) (view None 2 true)).
Proof.
  assert (Hb : inBounds (view None 2 true)) by closed.
  destruct (add_remove_keep_bounds_and_intent detect author video _ Hb)
    as (Ha & Hr).
  split.
  - exact (proj2 (proj2 (Ha (mkAnswer None None) "n1" 1 2))).
  - exact (proj1 (Hr "tk1" None 9)).
Defined.

(** Witness of C5: a remote view whose store answers with an error, and
    one whose store answers with the inserted row. *)
Lemma remote_failure_keeps_memory_witness :
  sameMemory (view (Some "u1") 1 true)
    (exec (addReel detect author video (mkAnswer None (Some "offline"))
                   "n1" 1 2) (view (Some "u1") 1 true))
  /\ sameMemory (view (Some "u1") 1 true)
       (exec (removeReel "ig1" (Some "offline") 9) (view (Some "u1") 1 true))
  /\ sameMemory (view (Some "u1") 1 true)
       (exec (updatePlaylistTags None (Some "offline"))
             (view (Some "u1") 1 true))
  /\ error (mkAnswer (Some row) (@None string)) = None.
Proof.
  destruct (remote_failure_keeps_memory detect author video
              (view (Some "u1") 1 true) three eq_refl eq_refl)
    as (Ha & Hr & Ht).
  split; [|split; [|split]].
  - apply (proj1 (Ha (mkAnswer None (Some "offline")) "n1" 1 2)).
    discriminate.
  - apply (proj1 (Hr "ig1" (Some "offline") 9)). discriminate.
  - apply (proj1 (Ht None (Some "offline"))).
    right. split; discriminate.
  - apply (proj2 (Ha (mkAnswer (Some row) None) "n1" 1 2)).
    intros [Hsame _]. vm_compute in Hsame. discriminate Hsame.
Defined.

(** Witness of C6: a blank URL, an unclassified one, and a YouTube link
    added in local mode and in remote mode. *)
Lemma addReel_rejects_or_appends_witness :
  reelsOf (exec (addReel detect author video (mkAnswer None None) "n1" 1 2)
                (viewOf three None 0 false "   "))
    = [yt1; ig1; tk1]
  /\ reelsOf (exec (addReel detect author video (mkAnswer None None) "n1" 1 2)
                   (viewOf three None 0 false "ftp://nowhere"))
     = [yt1; ig1; tk1]
  /\ ids (reelsOf (exec (addReel detect author video (mkAnswer None None)
                                 "n1" 1 2) (view None 0 false)))
     = ["yt1"; "ig1"; "tk1"; "n1"]
  /\ ids (reelsOf (exec (addReel detect author video
                                 (mkAnswer (Some row) None) "n1" 1 2)
                        (view (Some "u1") 0 false)))
     = ["yt1"; "ig1"; "tk1"; "r9"].
Proof.
  split; [|split; [|split]].
  - apply (proj1 (addReel_rejects_or_appends detect author video
                    (viewOf three None 0 false "   ")
                    (mkAnswer None None) "n1" 1 2)).
    right. left. reflexivity.
  - apply (proj1 (addReel_rejects_or_appends detect author video
                    (viewOf three None 0 false "ftp://nowhere")
                    (mkAnswer None None) "n1" 1 2)).
    right. right. reflexivity.
  - destruct (proj2 (addReel_rejects_or_appends detect author video
                       (view None 0 false) (mkAnswer None None) "n1" 1 2)
                    three "youtube" eq_refl) as [Hlocal _];
      [closed | reflexivity | discriminate |].
    destruct (Hlocal eq_refl) as [Hreels _]. now rewrite Hreels.
  - destruct (proj2 (addReel_rejects_or_appends detect author video
                       (view (Some "u1") 0 false) (mkAnswer (Some row) None)
                       "n1" 1 2)
                    three "youtube" eq_refl) as [_ Hremote];
      [closed | reflexivity | discriminate |].
    destruct (Hremote row eq_refl eq_refl) as [Hreels _]. now rewrite Hreels.
Defined.

(** Witness of C10: an identifier of no reel, in local and in remote
    mode. *)
Lemma removeReel_absent_id_witness :
  reelsOf (exec (removeReel "zz" None 9) (view None 1 true)) = [yt1; ig1; tk1]
  /\ currentReelIndex (exec (removeReel "zz" None 9) (view None 1 true)) = 1
  /\ playlist (exec (removeReel "zz" None 9) (view None 1 true))
     = Some (with_updatedAt three 9)
  /\ playlist (exec (removeReel "zz" None 9) (view (Some "u1") 1 true))
     = Some three.
Proof.
  assert (Habs : ~ In "zz" (ids (pl_reels three)))
    by (simpl; intuition discriminate).
  destruct (removeReel_absent_id (view None 1 true) three "zz" None 9
              eq_refl Habs) as (Hr & Hi & Hlocal & _); [closed|].
  destruct (removeReel_absent_id (view (Some "u1") 1 true) three "zz" None 9
              eq_refl Habs) as (_ & _ & _ & Hremote); [closed|].
  split; [exact Hr|]. split; [exact Hi|]. split.
  - exact (proj1 (Hlocal eq_refl)).
  - exact (proj1 (Hremote eq_refl eq_refl)).
Defined.

End PlaylistViewSamples.

Section PlayerSamples.
Import JsString EmbeddedPlayer PlayerSpec Samples.

(** Witness of C4: a Twitter reel, resolved after a YouTube one had
    failed to load, then a failure and a load reported. *)
Lemma twitter_never_embeds_witness :
  render tw1 (run [IframeFailed; IframeLoaded]
                  (exec (generateEmbedUrl tw1 true)
                        (exec handleIframeError
                              (exec (generateEmbedUrl yt1 true) initial))))
  = twitterCard tw1.
Proof.
  apply (twitter_never_embeds tw1 true
           (exec handleIframeError (exec (generateEmbedUrl yt1 true) initial))
           [IframeFailed; IframeLoaded] eq_refl eq_refl).
Defined.

(** C8 as stated fails, in two ways. A YouTube reel whose [videoId] is
    the empty string, which is not [null], gets no embed target and the
    fallback card. A Facebook reel with the identifier [10] whose page URL
    holds a lone surrogate, which [encodeURIComponent] refuses, gets no
    embed target either, and the error card. *)
Lemma non_null_videoId_without_target :
  (reel_videoId yt0 <> None
   /\ embedUrl (exec (generateEmbedUrl yt0 false) initial) = None
   /\ render yt0 (exec (generateEmbedUrl yt0 false) initial)
      = FallbackCard "clip" "Embedded player not available for this content"
                     "View on Youtube" "https://example.org/yt0")
  /\ (reel_videoId fb0 = Some "10"
      /\ encodeURIComponent (reel_url fb0) = None
      /\ embedUrl (exec (generateEmbedUrl fb0 false) initial) = None
      /\ render fb0 (exec (generateEmbedUrl fb0 false) initial)
         = ErrorCard "Failed to generate embed URL" (reel_url fb0)).
Proof.
  split.
  - split; [discriminate|]. split; reflexivity.
  - repeat split.
Qed.

(** Witness of C8 as amended: one reel of each embeddable platform. *)
Lemma embed_target_templates_witness :
  embedUrl (exec (generateEmbedUrl yt1 true) initial)
    = Some "https://www.youtube.com/embed/dQw4w9WgXcQ?autoplay=1&rel=0&modestbranding=1"
  /\ embedUrl (exec (generateEmbedUrl ig1 true) initial)
     = Some "https://www.instagram.com/p/CxYz/embed/"
  /\ embedUrl (exec (generateEmbedUrl tk1 true) initial)
     = Some "https://www.tiktok.com/embed/v2/7301"
  /\ embedUrl (exec (generateEmbedUrl fb1 true) initial)
     = Some "https://www.facebook.com/plugins/video.php?href=https%3A%2F%2Fexample.org%2Ffb1&show_text=false&width=560".
Proof.
  split; [|split; [|split]].
  - destruct (embed_target_templates yt1 "dQw4w9WgXcQ" true initial eq_refl)
      as (H & _); [discriminate|].
    exact (proj1 (H eq_refl)).
  - destruct (embed_target_templates ig1 "CxYz" true initial eq_refl)
      as (_ & H & _); [discriminate|].
    exact (proj1 (H eq_refl)).
  - destruct (embed_target_templates tk1 "7301" true initial eq_refl)
      as (_ & _ & H & _); [discriminate|].
    exact (proj1 (H eq_refl)).
  - destruct (embed_target_templates fb1 "42" true initial eq_refl)
      as (_ & _ & _ & H); [discriminate|].
    exact (proj1 (H eq_refl _ eq_refl)).
Defined.

End PlayerSamples.

(* ================================================================== *)
(** ** Further properties of the playlist view *)

Section PlaylistViewMore.
Import JsString ViewPlaylist PlaylistSpec ViewPlaylistPage.

Ltac run_view :=
  cbv [exec bind ret modify throw try_catch finally onUi
       setPlaylist setCurrentReelIndex setIsPlaying setNewReelUrl
       setIsLoading setShowTagManager setSelectedTags setUserId emit
       toast_error toast_success console_error getPlaylistsFromStorage
       savePlaylistsToStorage throwIfError throwIfErrorP orTypeError
       adjustIndex selectReel playPause setIsCopied navigate copyToClipboard];
  cbn [fst snd playlist currentReelIndex isPlaying newReelUrl userId
       isLoading selectedTags showTagManager log storage
       ui isCopied navigations clipboard].

(** *** Stepping *)

Lemma nextReel_step (s : State) (pl : Playlist) :
  playlist s = Some pl ->
  0 <= currentReelIndex s < reelCount pl ->
  playlist (exec nextReel s) = Some pl
  /\ currentReelIndex (exec nextReel s)
     = (currentReelIndex s + 1) mod reelCount pl.
Proof.
  intros Hp Hi. assert (Hn : reelCount pl <> 0) by lia.
  rewrite (nextReel_exec s pl Hp Hn). cbn [playlist currentReelIndex].
  split; [exact Hp|].
  destruct (Z.ltb_spec (currentReelIndex s) (reelCount pl - 1)).
  - rewrite Z.mod_small; lia.
  - replace (currentReelIndex s + 1) with (reelCount pl) by lia.
    now rewrite Z.mod_same by lia.
Qed.

Lemma prevReel_step (s : State) (pl : Playlist) :
  playlist s = Some pl ->
  0 <= currentReelIndex s < reelCount pl ->
  playlist (exec prevReel s) = Some pl
  /\ currentReelIndex (exec prevReel s)
     = (currentReelIndex s - 1) mod reelCount pl.
Proof.
  intros Hp Hi. assert (Hn : reelCount pl <> 0) by lia.
  rewrite (prevReel_exec s pl Hp Hn). cbn [playlist currentReelIndex].
  split; [exact Hp|].
  destruct (Z.gtb_spec (currentReelIndex s) 0).
  - rewrite Z.mod_small; lia.
  - replace (currentReelIndex s - 1) with (-1 + 1 * reelCount pl - reelCount pl)
      by lia.
    replace (-1 + 1 * reelCount pl - reelCount pl)
      with (reelCount pl - 1 + (-1) * reelCount pl) by lia.
    rewrite Z.mod_add by lia. rewrite Z.mod_small; lia.
Qed.

Lemma times_next (s : State) (pl : Playlist) (k : nat) :
  playlist s = Some pl ->
  0 <= currentReelIndex s < reelCount pl ->
  playlist (times k nextReel s) = Some pl
  /\ currentReelIndex (times k nextReel s)
     = (currentReelIndex s + Z.of_nat k) mod reelCount pl.
Proof.
  intros Hp Hi. induction k as [|k [IHp IHi]].
  - cbn [times Nat.iter Z.of_nat]. split; [exact Hp|].
    rewrite Z.add_0_r. symmetry. apply Z.mod_small. exact Hi.
  - change (times (S k) nextReel s) with (exec nextReel (times k nextReel s)).
    assert (Hr : 0 <= currentReelIndex (times k nextReel s) < reelCount pl)
      by (rewrite IHi; apply Z.mod_pos_bound; lia).
    destruct (nextReel_step _ pl IHp Hr) as [Hp' Hi'].
    split; [exact Hp'|]. rewrite Hi', IHi.
    rewrite Zplus_mod_idemp_l. f_equal. lia.
Qed.

Lemma times_prev (s : State) (pl : Playlist) (k : nat) :
  playlist s = Some pl ->
  0 <= currentReelIndex s < reelCount pl ->
  playlist (times k prevReel s) = Some pl
  /\ currentReelIndex (times k prevReel s)
     = (currentReelIndex s - Z.of_nat k) mod reelCount pl.
Proof.
  intros Hp Hi. induction k as [|k [IHp IHi]].
  - cbn [times Nat.iter Z.of_nat]. split; [exact Hp|].
    rewrite Z.sub_0_r. symmetry. apply Z.mod_small. exact Hi.
  - change (times (S k) prevReel s) with (exec prevReel (times k prevReel s)).
    assert (Hr : 0 <= currentReelIndex (times k prevReel s) < reelCount pl)
      by (rewrite IHi; apply Z.mod_pos_bound; lia).
    destruct (prevReel_step _ pl IHp Hr) as [Hp' Hi'].
    split; [exact Hp'|]. rewrite Hi', IHi.
    rewrite Zminus_mod_idemp_l. f_equal. lia.
Qed.

(** X1. Pressing next [k] times on a playlist of N > 0 reels moves the
    current index from i to (i + k) mod N, pressing previous [k] times to
    (i - k) mod N; N presses of either bring the view back to the reel it
    showed. The reels are left as they are. *)
Theorem stepping_k_times (s : State) (k : nat) :
  0 <= currentReelIndex s < count s ->
  (currentReelIndex (times k nextReel s)
     = (currentReelIndex s + Z.of_nat k) mod count s
   /\ reelsOf (times k nextReel s) = reelsOf s)
  /\ (currentReelIndex (times k prevReel s)
        = (currentReelIndex s - Z.of_nat k) mod count s
      /\ reelsOf (times k prevReel s) = reelsOf s)
  /\ currentReelIndex (times (Z.to_nat (count s)) nextReel s)
     = currentReelIndex s
  /\ currentReelIndex (times (Z.to_nat (count s)) prevReel s)
     = currentReelIndex s.
Proof.
  intros Hi.
  destruct (playlist s) as [pl|] eqn:Hp;
    [|unfold count, reelsOf in Hi; rewrite Hp in Hi; simpl in Hi; lia].
  pose proof (count_loaded s pl Hp) as Hc. rewrite Hc in *.
  assert (Hreels : forall s', playlist s' = Some pl -> reelsOf s' = reelsOf s)
    by (intros s' Hs'; unfold reelsOf; now rewrite Hs', Hp).
  split; [|split; [|split]].
  - destruct (times_next s pl k Hp Hi) as [Hp' Hi']. split; auto.
  - destruct (times_prev s pl k Hp Hi) as [Hp' Hi']. split; auto.
  - destruct (times_next s pl (Z.to_nat (reelCount pl)) Hp Hi) as [_ Hi'].
    rewrite Hi', Z2Nat.id by lia.
    replace (currentReelIndex s + reelCount pl)
      with (currentReelIndex s + 1 * reelCount pl) by lia.
    rewrite Z.mod_add by lia. apply Z.mod_small; lia.
  - destruct (times_prev s pl (Z.to_nat (reelCount pl)) Hp Hi) as [_ Hi'].
    rewrite Hi', Z2Nat.id by lia.
    replace (currentReelIndex s - reelCount pl)
      with (currentReelIndex s + (-1) * reelCount pl) by lia.
    rewrite Z.mod_add by lia. apply Z.mod_small; lia.
Qed.

(** X2. With the index in range, previous after next, and next after
    previous, leave the view as it was but for the play intent, which is
    paused. *)
Theorem next_prev_cancel (s : State) :
  0 <= currentReelIndex s < count s ->
  exec prevReel (exec nextReel s) = exec (setIsPlaying false) s
  /\ exec nextReel (exec prevReel s) = exec (setIsPlaying false) s.
Proof.
  intros Hi.
  destruct (playlist s) as [pl|] eqn:Hp;
    [|unfold count, reelsOf in Hi; rewrite Hp in Hi; simpl in Hi; lia].
  pose proof (count_loaded s pl Hp) as Hc. rewrite Hc in *.
  assert (Hn : reelCount pl <> 0) by lia.
  split.
  - rewrite (prevReel_exec (exec nextReel s) pl);
      [|now rewrite (nextReel_exec s pl Hp Hn) | exact Hn].
    rewrite (nextReel_exec s pl Hp Hn). run_view. f_equal.
    destruct (Z.ltb_spec (currentReelIndex s) (reelCount pl - 1)).
    + destruct (Z.gtb_spec (currentReelIndex s + 1) 0); lia.
    + cbn. lia.
  - rewrite (nextReel_exec (exec prevReel s) pl);
      [|now rewrite (prevReel_exec s pl Hp Hn) | exact Hn].
    rewrite (prevReel_exec s pl Hp Hn). run_view. f_equal.
    destruct (Z.gtb_spec (currentReelIndex s) 0).
    + destruct (Z.ltb_spec (currentReelIndex s - 1) (reelCount pl - 1)); lia.
    + rewrite Z.ltb_irrefl. lia.
Qed.

(** X3. On a playlist of N > 0 reels, next brings any index i >= 0, also
    one beyond the list, into [[0, N-1]] in one step; previous only lowers
    a positive index by one, so an index beyond N stays beyond the list. *)
Theorem next_repairs_index (s : State) :
  0 < count s ->
  0 <= currentReelIndex s ->
  0 <= currentReelIndex (exec nextReel s) < count s
  /\ (0 < currentReelIndex s ->
      currentReelIndex (exec prevReel s) = currentReelIndex s - 1).
Proof.
  intros HN Hi.
  destruct (playlist s) as [pl|] eqn:Hp;
    [|unfold count, reelsOf in HN; rewrite Hp in HN; simpl in HN; lia].
  pose proof (count_loaded s pl Hp) as Hc. rewrite Hc in *.
  assert (Hn : reelCount pl <> 0) by lia.
  rewrite (nextReel_exec s pl Hp Hn), (prevReel_exec s pl Hp Hn).
  cbn [currentReelIndex]. split.
  - destruct (Z.ltb_spec (currentReelIndex s) (reelCount pl - 1)); lia.
  - intros Hpos. destruct (Z.gtb_spec (currentReelIndex s) 0); lia.
Qed.

(** *** Adding, removing, and the reel on show *)

Lemma withoutReel_last_fresh (rs : list ReelItem) (new : ReelItem)
    (key : string) :
  reel_id new = key ->
  ~ In key (ids rs) ->
  withoutReel key (rs ++ [new])%list = rs.
Proof.
  intros <- Hfresh. unfold withoutReel. rewrite filter_app.
  fold (withoutReel (reel_id new) rs).
  rewrite withoutReel_absent by exact Hfresh.
  cbn [filter]. rewrite String.eqb_refl. cbn [negb]. apply app_nil_r.
Qed.

Lemma with_reels_twice (pl : Playlist) (rs : list ReelItem) :
  with_reels (with_reels pl rs) (pl_reels pl) = pl.
Proof. now destruct pl. Qed.

Lemma stamped_twice (pl : Playlist) (rs : list ReelItem) (d1 d2 : Date) :
  with_updatedAt (with_reels (with_updatedAt (with_reels pl rs) d1) (pl_reels pl)) d2
  = with_updatedAt pl d2.
Proof. now destruct pl. Qed.

Section RoundTrip.
Variable detectPlatform : string -> option string.
Variable extractAuthor : string -> string -> option string.
Variable extractVideoId : string -> string -> option string.

(** X4. A reel added and then removed by its identifier, which no other
    reel of the playlist carries, leaves the playlist as it was before the
    add (in local mode but for [updatedAt], which is the time of the
    removal), with the current index and the play intent it had. *)
Theorem add_then_remove_round_trip (s : State) (pl : Playlist)
    (platform : string) (answer : Answer ReelRow) (uuid : string)
    (addedAt updatedAt now : Date) (deleteError : option string) :
  playlist s = Some pl ->
  trim (newReelUrl s) <> EmptyString ->
  detectPlatform (newReelUrl s) = Some platform ->
  platform <> EmptyString ->
  inBounds s ->
  let added := exec (addReel detectPlatform extractAuthor extractVideoId
                             answer uuid addedAt updatedAt) s in
  (remoteMode s = false ->
   ~ In uuid (ids (pl_reels pl)) ->
     let s' := exec (removeReel uuid deleteError now) added in
     playlist s' = Some (with_updatedAt pl now)
     /\ currentReelIndex s' = currentReelIndex s
     /\ isPlaying s' = isPlaying s)
  /\ (forall row,
        remoteMode s = true ->
        answer = mkAnswer (Some row) None ->
        ~ In (row_id row) (ids (pl_reels pl)) ->
        let s' := exec (removeReel (row_id row) None now) added in
        playlist s' = Some pl
        /\ currentReelIndex s' = currentReelIndex s
        /\ isPlaying s' = isPlaying s).
Proof.
  intros Hp Ht Hd Hne Hb added. subst added.
  pose proof (clampAfter_inBounds s pl Hp Hb) as Hclamp.
  split.
  - intros Hm Hfresh s'. subst s'.
    rewrite (addReel_local detectPlatform extractAuthor extractVideoId
               s pl platform answer uuid addedAt updatedAt Hp Ht Hd Hne Hm).
    erewrite removeReel_done;
      [|reflexivity | left; unfold remoteMode in *; exact Hm].
    cbn [playlist currentReelIndex isPlaying pl_reels with_reels with_updatedAt].
    unfold remoteMode in *. cbn [userId]. rewrite Hm.
    rewrite !(withoutReel_last_fresh (pl_reels pl)
                (localReel extractAuthor extractVideoId s platform uuid addedAt)
                uuid eq_refl Hfresh).
    rewrite Hclamp. split; [|split; reflexivity].
    now destruct pl.
  - intros row Hm -> Hfresh s'. subst s'.
    rewrite (addReel_remote detectPlatform extractAuthor extractVideoId
               s pl platform row uuid addedAt updatedAt Hp Ht Hd Hne Hm).
    erewrite removeReel_done; [|reflexivity | right; reflexivity].
    cbn [playlist currentReelIndex isPlaying pl_reels with_reels].
    unfold remoteMode in *. cbn [userId]. rewrite Hm.
    rewrite !(withoutReel_last_fresh (pl_reels pl)
                (reelOfRow row (extractVideoId (newReelUrl s) platform))
                (row_id row) eq_refl Hfresh).
    rewrite Hclamp. split; [|split; reflexivity].
    now destruct pl.
Qed.
End RoundTrip.

Lemma withoutReel_at (rs : list ReelItem) (j : nat) (r : ReelItem) :
  NoDup (ids rs) -> nth_error rs j = Some r ->
  withoutReel (reel_id r) rs = (firstn j rs ++ skipn (S j) rs)%list.
Proof.
  revert j. induction rs as [|x rs IH]; intros j Hnd Hnth.
  - destruct j; discriminate.
  - inversion Hnd as [|? ? Hx Hnd']; subst.
    destruct j as [|j]; cbn [nth_error] in Hnth.
    + injection Hnth as ->. cbn [withoutReel filter firstn skipn app].
      rewrite String.eqb_refl. cbn [negb].
      now apply withoutReel_absent.
    + cbn [withoutReel filter firstn skipn app].
      destruct (String.eqb_spec (reel_id x) (reel_id r)) as [Heq|Hneq].
      * exfalso. apply Hx. rewrite Heq.
        apply in_map, (nth_error_In _ _ Hnth).
      * cbn [negb]. f_equal. now apply IH.
Qed.

Lemma nth_error_without (rs : list ReelItem) (j k : nat) :
  (j < List.length rs)%nat ->
  nth_error (firstn j rs ++ skipn (S j) rs) k
  = if (k <? j)%nat then nth_error rs k else nth_error rs (S k).
Proof.
  intros Hj.
  assert (Hlen : List.length (firstn j rs) = j)
    by (apply firstn_length_le; lia).
  destruct (Nat.ltb_spec k j) as [Hk|Hk].
  - rewrite nth_error_app1 by lia. rewrite nth_error_firstn.
    now apply Nat.ltb_lt in Hk as ->.
  - rewrite nth_error_app2 by lia. rewrite Hlen, nth_error_skipn.
    f_equal. lia.
Qed.

Lemma length_without (rs : list ReelItem) (j : nat) :
  (j < List.length rs)%nat ->
  S (List.length (firstn j rs ++ skipn (S j) rs)) = List.length rs.
Proof.
  intros Hj. rewrite length_app, firstn_length_le, length_skipn by lia. lia.
Qed.

(** X5. Which reel is on show after a removal, on a playlist whose
    identifiers are pairwise distinct, the reel at position j being removed
    while the one at i is current: a reel behind the current one (i < j)
    leaves it on show; a reel before it or the current one itself
    (j <= i), when the current one is not the last, puts the next reel of
    the old list on show, the index staying as it is; a reel before the
    last, the last being current, leaves the last on show; removing the
    last while it is current shows the one before it, or nothing when it
    was the only reel. *)
Theorem removal_shows (s : State) (pl : Playlist) (j : nat) (r : ReelItem)
    (deleteError : option string) (now : Date) :
  playlist s = Some pl ->
  removalDone s deleteError ->
  NoDup (ids (pl_reels pl)) ->
  nth_error (pl_reels pl) j = Some r ->
  0 <= currentReelIndex s < reelCount pl ->
  let i := currentReelIndex s in
  let s' := exec (removeReel (reel_id r) deleteError now) s in
  (i < Z.of_nat j -> currentReel s' = currentReel s)
  /\ (Z.of_nat j <= i -> i < reelCount pl - 1 ->
      currentReel s' = reelAt pl (i + 1))
  /\ (Z.of_nat j < i -> i = reelCount pl - 1 ->
      currentReel s' = currentReel s)
  /\ (Z.of_nat j = i -> i = reelCount pl - 1 ->
      currentReel s' = if reelCount pl =? 1 then None else reelAt pl (i - 1)).
Proof.
  intros Hp Hdone Hnd Hnth Hi i s'. subst i s'.
  rewrite (removeReel_done s pl (reel_id r) deleteError now Hp Hdone).
  unfold currentReel. cbn [playlist currentReelIndex]. rewrite Hp.
  assert (Hj : (j < List.length (pl_reels pl))%nat)
    by (apply nth_error_Some; congruence).
  pose proof (length_without (pl_reels pl) j Hj) as Hlen.
  pose proof (withoutReel_at (pl_reels pl) j r Hnd Hnth) as Hw.
  assert (Hat : forall z,
             reelAt (if remoteMode s
                     then with_reels pl (withoutReel (reel_id r) (pl_reels pl))
                     else with_updatedAt
                            (with_reels pl (withoutReel (reel_id r) (pl_reels pl)))
                            now) z
             = if z <? 0 then None
               else if (Z.to_nat z <? j)%nat
                    then nth_error (pl_reels pl) (Z.to_nat z)
                    else nth_error (pl_reels pl) (S (Z.to_nat z))).
  { intros z. unfold reelAt.
    destruct (remoteMode s); cbn [pl_reels with_reels with_updatedAt];
      rewrite Hw, nth_error_without by exact Hj; reflexivity. }
  rewrite Hat. unfold clampAfter, reelAt, reelCount in *. rewrite Hw.
  set (rest := (firstn j (pl_reels pl) ++ skipn (S j) (pl_reels pl))%list) in *.
  assert (Hrest : Z.of_nat (List.length rest)
                  = Z.of_nat (List.length (pl_reels pl)) - 1) by lia.
  rewrite Hrest.
  split; [|split; [|split]].
  - intros Hlt.
    destruct (Z.geb_spec (currentReelIndex s)
                (Z.of_nat (List.length (pl_reels pl)) - 1)); [lia|].
    destruct (Z.ltb_spec (currentReelIndex s) 0); [lia|].
    destruct (Nat.ltb_spec (Z.to_nat (currentReelIndex s)) j); [reflexivity|lia].
  - intros Hle Hnotlast.
    destruct (Z.geb_spec (currentReelIndex s)
                (Z.of_nat (List.length (pl_reels pl)) - 1)); [lia|].
    destruct (Z.ltb_spec (currentReelIndex s) 0); [lia|].
    destruct (Z.ltb_spec (currentReelIndex s + 1) 0); [lia|].
    destruct (Nat.ltb_spec (Z.to_nat (currentReelIndex s)) j); [lia|].
    f_equal. lia.
  - intros Hlt Hlast.
    destruct (Z.geb_spec (currentReelIndex s)
                (Z.of_nat (List.length (pl_reels pl)) - 1)); [|lia].
    rewrite Z.max_r by lia.
    destruct (Z.ltb_spec (Z.of_nat (List.length (pl_reels pl)) - 1 - 1) 0);
      [lia|].
    destruct (Z.ltb_spec (currentReelIndex s) 0); [lia|].
    destruct (Nat.ltb_spec
                (Z.to_nat (Z.of_nat (List.length (pl_reels pl)) - 1 - 1)) j);
      [lia|].
    f_equal. lia.
  - intros Heq Hlast.
    destruct (Z.geb_spec (currentReelIndex s)
                (Z.of_nat (List.length (pl_reels pl)) - 1)); [|lia].
    destruct (Z.eqb_spec (Z.of_nat (List.length (pl_reels pl))) 1) as [H1|H1].
    + rewrite H1. cbn.
      assert (j = 0%nat) by lia. subst j.
      destruct (pl_reels pl) as [|x [|y l]]; cbn in *; try lia. reflexivity.
    + rewrite Z.max_r by lia.
      destruct (Z.ltb_spec (Z.of_nat (List.length (pl_reels pl)) - 1 - 1) 0);
        [lia|].
      destruct (Z.ltb_spec (currentReelIndex s - 1) 0); [lia|].
      destruct (Nat.ltb_spec
                  (Z.to_nat (Z.of_nat (List.length (pl_reels pl)) - 1 - 1)) j);
        [|lia].
      f_equal. lia.
Qed.

(** X6. Once loaded, on a playlist with reels, the view shows the player
    on the reel at the current index when the index is within the list,
    and the [No reel selected] line exactly when it is not. *)
Theorem screen_shows_current (s : State) :
  isLoading s = false ->
  0 < count s ->
  (0 <= currentReelIndex s < count s ->
     exists reel,
       nth_error (reelsOf s) (Z.to_nat (currentReelIndex s)) = Some reel
       /\ screen s = Player reel (isPlaying s))
  /\ (screen s = NoReelSelected
      <-> currentReelIndex s < 0 \/ count s <= currentReelIndex s).
Proof.
  intros Hl HN.
  destruct (playlist s) as [pl|] eqn:Hp;
    [|unfold count, reelsOf in HN; rewrite Hp in HN; simpl in HN; lia].
  pose proof (count_loaded s pl Hp) as Hc. rewrite Hc in *.
  unfold screen, reelsOf, reelAt. rewrite Hl, Hp.
  assert (Hn : (reelCount pl =? 0) = false) by (apply Z.eqb_neq; lia).
  rewrite Hn. unfold reelCount in *.
  destruct (Z.ltb_spec (currentReelIndex s) 0) as [Hneg|Hpos].
  - split; [lia|]. split; auto.
  - destruct (nth_error (pl_reels pl) (Z.to_nat (currentReelIndex s)))
      as [reel|] eqn:Hnth.
    + assert ((Z.to_nat (currentReelIndex s) < List.length (pl_reels pl))%nat)
        by (apply nth_error_Some; congruence).
      split; [intros _; now exists reel|].
      split; [discriminate | lia].
    + apply nth_error_None in Hnth.
      split; [lia|]. split; [lia | reflexivity].
Qed.

(** *** What [updatePlaylistTags] leaves, when the store accepts *)

Lemma updatePlaylistTags_done (s : State) (pl : Playlist)
    (insertError : option string) :
  playlist s = Some pl -> remoteMode s = true ->
  selectedTags s = [] \/ insertError = None ->
  exec (updatePlaylistTags None insertError) s =
    mkState (Some (with_tags pl (selectedTags s))) (currentReelIndex s)
            (isPlaying s) (newReelUrl s) (userId s) false (selectedTags s)
            false (log s ++ [ToastSuccess "Tags updated"])%list (storage s).
Proof.
  intros Hp Hm Hok. unfold remoteMode in Hm.
  unfold updatePlaylistTags, exec. rewrite Hp, Hm. cbn [negb].
  destruct (selectedTags s) as [|t ts] eqn:Hs.
  - cbn [List.length Z.of_nat Z.gtb Z.compare]. run_view. now rewrite Hs.
  - destruct Hok as [Hnil | ->]; [discriminate|].
    cbn [List.length Z.of_nat Z.gtb Z.compare]. run_view. now rewrite Hs.
Qed.

Lemma updatePlaylistTags_idle (s : State) (deleteError insertError : option string) :
  playlist s = None \/ remoteMode s = false ->
  exec (updatePlaylistTags deleteError insertError) s = s.
Proof.
  unfold remoteMode, updatePlaylistTags, exec.
  intros [Hp | Hm].
  - now rewrite Hp.
  - destruct (playlist s); [now rewrite Hm | reflexivity].
Qed.

(** The ways [updatePlaylistTags] can end. *)
Lemma updatePlaylistTags_cases (s : State) (deleteError insertError : option string) :
  let s' := exec (updatePlaylistTags deleteError insertError) s in
  s' = s
  \/ s' = reported s false [ConsoleError "Error updating tags:";
                            ToastError "Failed to update tags"]
  \/ exists pl,
       playlist s = Some pl
       /\ s' = mkState (Some (with_tags pl (selectedTags s)))
                 (currentReelIndex s) (isPlaying s) (newReelUrl s) (userId s)
                 false (selectedTags s) false
                 (log s ++ [ToastSuccess "Tags updated"])%list (storage s).
Proof.
  cbv zeta.
  destruct (playlist s) as [pl|] eqn:Hp;
    [|left; apply updatePlaylistTags_idle; now left].
  destruct (remoteMode s) eqn:Hm;
    [|left; apply updatePlaylistTags_idle; now right].
  destruct deleteError as [e|].
  { right. left. apply (updatePlaylistTags_failed s pl); auto.
    left. discriminate. }
  destruct (selectedTags s) as [|t ts] eqn:Hs.
  { right. right. exists pl. split; [reflexivity|].
    rewrite <- Hs. apply updatePlaylistTags_done; auto. }
  destruct insertError as [e|].
  - right. left. apply (updatePlaylistTags_failed s pl); auto.
    right. rewrite Hs. split; discriminate.
  - right. right. exists pl. split; [reflexivity|].
    rewrite <- Hs. apply updatePlaylistTags_done; auto.
Qed.

(** X7. [updatePlaylistTags] never touches the reels, the current index,
    the play intent or the local store. In local mode it does nothing at
    all; with no tag selected the answer to the insert is not consulted;
    and when the store accepts, the playlist carries the selected tags and
    the tag manager is closed. *)
Theorem updatePlaylistTags_frame (s : State)
    (deleteError insertError : option string) :
  let s' := exec (updatePlaylistTags deleteError insertError) s in
  (reelsOf s' = reelsOf s
   /\ currentReelIndex s' = currentReelIndex s
   /\ isPlaying s' = isPlaying s
   /\ storage s' = storage s)
  /\ (remoteMode s = false -> s' = s)
  /\ (selectedTags s = [] ->
      forall other, s' = exec (updatePlaylistTags deleteError other) s)
  /\ (forall pl,
        playlist s = Some pl -> remoteMode s = true ->
        deleteError = None ->
        selectedTags s = [] \/ insertError = None ->
        playlist s' = Some (with_tags pl (selectedTags s))
        /\ showTagManager s' = false
        /\ logged s s' [ToastSuccess "Tags updated"]).
Proof.
  cbv zeta. split; [|split; [|split]].
  - destruct (updatePlaylistTags_cases s deleteError insertError)
      as [-> | [-> | (pl & Hp & ->)]]; try now repeat split.
    unfold reelsOf. cbn [playlist]. rewrite Hp. now repeat split.
  - intros Hm. apply updatePlaylistTags_idle. now right.
  - intros Hs other.
    destruct (playlist s) as [pl|] eqn:Hp;
      [|now rewrite !updatePlaylistTags_idle by now left].
    destruct (remoteMode s) eqn:Hm;
      [|now rewrite !updatePlaylistTags_idle by now right].
    destruct deleteError as [e|].
    + rewrite !(updatePlaylistTags_failed s pl) by (auto; left; discriminate).
      reflexivity.
    + now rewrite !(updatePlaylistTags_done s pl) by auto.
  - intros pl Hp Hm -> Hok.
    rewrite (updatePlaylistTags_done s pl insertError Hp Hm Hok).
    now repeat split.
Qed.

(** *** Sequences of actions *)

Section Actions.
Variable detectPlatform : string -> option string.
Variable extractAuthor : string -> string -> option string.
Variable extractVideoId : string -> string -> option string.

Lemma act_inBounds (a : Action) (s : State) :
  inBounds s ->
  inBounds (exec (act detectPlatform extractAuthor extractVideoId a) s).
Proof.
  intros Hb. destruct a; cbn [act].
  - exact Hb.
  - now apply nextReel_inBounds.
  - now apply prevReel_inBounds.
  - unfold exec.
    destruct (nth_error _ n) as [r|] eqn:Hnth; [|exact Hb].
    assert (Hn : (n < List.length (reelsOf s))%nat).
    { unfold reelsOf. apply nth_error_Some. congruence. }
    run_view. unfold inBounds, count in *.
    change (reelsOf (mkState (playlist s) (Z.of_nat n) false (newReelUrl s)
                       (userId s) (isLoading s) (selectedTags s)
                       (showTagManager s) (log s) (storage s)))
      with (reelsOf s).
    cbn [currentReelIndex]. lia.
  - exact Hb.
  - now apply addReel_inBounds.
  - now apply removeReel_inBounds.
  - exact Hb.
  - exact Hb.
  - destruct (updatePlaylistTags_frame s deleteError insertError)
      as ((Hr & Hi & _) & _).
    unfold inBounds, count in *. now rewrite Hr, Hi.
Qed.

(** X8. Whatever the user does on the loaded view (play or pause, next,
    previous, a click on a card of the list, typing, adding, removing,
    picking tags, updating them), in any order and whatever the store
    answers, a current index within [[0, max(0, N-1)]] stays within it. *)
Theorem actions_keep_index_in_bounds (l : list Action) (s : State) :
  inBounds s ->
  inBounds (acts detectPlatform extractAuthor extractVideoId l s).
Proof.
  revert s. induction l as [|a l IH]; intros s Hb; [exact Hb|].
  cbn [acts fold_left]. apply IH. now apply act_inBounds.
Qed.

(** *** Memory and local store *)

Lemma find_replace (updated old : Playlist) (key : string) (ps : list Playlist) :
  find (fun p => String.eqb (pl_id p) key) ps = Some old ->
  pl_id updated = key ->
  find (fun p => String.eqb (pl_id p) key) (replacePlaylist updated key ps)
  = Some updated.
Proof.
  intros Hfind Hid. unfold replacePlaylist.
  induction ps as [|p ps IH]; [discriminate|].
  cbn [map find] in *.
  destruct (String.eqb (pl_id p) key) eqn:Hk.
  - now rewrite Hid, String.eqb_refl.
  - rewrite Hk. now apply IH.
Qed.

Lemma others_replace (updated : Playlist) (key : string) (ps : list Playlist) :
  pl_id updated = key ->
  others key (replacePlaylist updated key ps) = others key ps
  /\ map pl_id (replacePlaylist updated key ps) = map pl_id ps.
Proof.
  intros Hid. unfold others, replacePlaylist.
  induction ps as [|p ps [IHo IHm]]; [now split|].
  cbn [map filter].
  destruct (String.eqb_spec (pl_id p) key) as [Hk|Hk].
  - rewrite Hid, String.eqb_refl. cbn [negb]. split; [exact IHo|].
    now rewrite IHm, Hk.
  - apply String.eqb_neq in Hk. rewrite Hk. cbn [negb].
    split; now f_equal.
Qed.

Lemma addReel_local_cases (s : State) (pl : Playlist) (answer : Answer ReelRow)
    (uuid : string) (d1 d2 : Date) :
  playlist s = Some pl -> truthy (userId s) = false ->
  let s' := exec (addReel detectPlatform extractAuthor extractVideoId
                          answer uuid d1 d2) s in
  (exists msg, s' = reported s (isLoading s) [ToastError msg])
  \/ exists updated,
       pl_id updated = pl_id pl
       /\ playlist s' = Some updated
       /\ userId s' = userId s
       /\ storage s' = replacePlaylist updated (pl_id pl) (storage s).
Proof.
  intros Hp Hm. cbv zeta.
  destruct (string_dec (trim (newReelUrl s)) EmptyString) as [Ht|Ht];
    [left; eexists; eapply addReel_blank; eassumption|].
  destruct (detectPlatform (newReelUrl s)) as [platform|] eqn:Hd;
    [|left; eexists; eapply addReel_unclassified; eauto].
  destruct (string_dec platform EmptyString) as [->|Hne];
    [left; eexists; eapply addReel_unclassified; eauto|].
  right.
  rewrite (addReel_local detectPlatform extractAuthor extractVideoId
             s pl platform answer uuid d1 d2 Hp Ht Hd Hne Hm).
  exists (with_updatedAt
            (with_reels pl
               (pl_reels pl
                ++ [localReel extractAuthor extractVideoId s platform uuid d1])%list)
            d2).
  cbn [playlist userId storage]. repeat split.
Qed.

Lemma act_localView (key : string) (a : Action) (s : State) :
  localView key s ->
  let s' := exec (act detectPlatform extractAuthor extractVideoId a) s in
  localView key s'
  /\ others key (storage s') = others key (storage s)
  /\ map pl_id (storage s') = map pl_id (storage s).
Proof.
  intros (Hm & (pl & Hp & Hid) & Hsync). cbv zeta.
  assert (Hsame : forall s',
             userId s' = userId s -> playlist s' = playlist s ->
             storage s' = storage s ->
             localView key s'
             /\ others key (storage s') = others key (storage s)
             /\ map pl_id (storage s') = map pl_id (storage s)).
  { intros s' Hu Hp' Hst. unfold localView, synced.
    rewrite Hu, Hp', Hst. repeat split; auto. now exists pl. }
  assert (Hrepl : forall s' updated,
             pl_id updated = pl_id pl ->
             playlist s' = Some updated ->
             userId s' = userId s ->
             storage s' = replacePlaylist updated (pl_id pl) (storage s) ->
             localView key s'
             /\ others key (storage s') = others key (storage s)
             /\ map pl_id (storage s') = map pl_id (storage s)).
  { intros s' updated Hu Hp' Hus Hst.
    destruct (others_replace updated (pl_id pl) (storage s) Hu) as [Ho Hi].
    unfold localView, synced. rewrite Hus, Hp', Hst, <- Hid.
    repeat split; auto.
    - exists updated. now split.
    - intros pl' [= <-]. rewrite Hu.
      apply (find_replace updated pl); [now apply Hsync | exact Hu]. }
  destruct a; cbn [act].
  - apply Hsame; reflexivity.
  - destruct (Z.eq_dec (reelCount pl) 0) as [Hz|Hnz].
    + unfold nextReel, exec. rewrite Hp, Hz. apply Hsame; reflexivity.
    + rewrite (nextReel_exec s pl Hp Hnz). apply Hsame; reflexivity.
  - destruct (Z.eq_dec (reelCount pl) 0) as [Hz|Hnz].
    + unfold prevReel, exec. rewrite Hp, Hz. apply Hsame; reflexivity.
    + rewrite (prevReel_exec s pl Hp Hnz). apply Hsame; reflexivity.
  - unfold exec. destruct (nth_error _ n); apply Hsame; reflexivity.
  - apply Hsame; reflexivity.
  - destruct (addReel_local_cases s pl answer uuid addedAt updatedAt Hp Hm)
      as [[msg ->] | (updated & Hu & Hp' & Hus & Hst)].
    + apply Hsame; reflexivity.
    + now apply (Hrepl _ updated).
  - rewrite (removeReel_done s pl reelId deleteError now Hp (or_introl Hm)).
    unfold remoteMode. rewrite Hm.
    apply (Hrepl _ (with_updatedAt
                      (with_reels pl (withoutReel reelId (pl_reels pl))) now));
      reflexivity.
  - apply Hsame; reflexivity.
  - apply Hsame; reflexivity.
  - rewrite updatePlaylistTags_idle by now right.
    apply Hsame; reflexivity.
Qed.

(** X9. In local mode, from a view whose playlist is the one the local
    store holds under its identifier, every sequence of actions keeps
    memory and store in agreement: the store's entry for the identifier is
    the playlist in memory; the playlists stored under other identifiers,
    and the order of the stored identifiers, are as they were. *)
Theorem local_store_follows_memory (key : string) (l : list Action)
    (s : State) :
  localView key s ->
  let s' := acts detectPlatform extractAuthor extractVideoId l s in
  localView key s'
  /\ others key (storage s') = others key (storage s)
  /\ map pl_id (storage s') = map pl_id (storage s).
Proof.
  revert s. induction l as [|a l IH]; intros s Hv;
    [split; [exact Hv | split; reflexivity]|].
  cbn [acts fold_left].
  destruct (act_localView key a s Hv) as (Hv' & Ho & Hi).
  destruct (IH _ Hv') as (Hv'' & Ho' & Hi').
  cbv zeta in *. unfold acts in *. cbn [fold_left].
  split; [exact Hv''|]. split; congruence.
Qed.

End Actions.

(** *** Loading *)

Section LoadingProperties.
Variable detectPlatform : string -> option string.
Variable extractAuthor : string -> string -> option string.
Variable extractVideoId : string -> string -> option string.

(** X10. The load effect in local mode, for a route identifier [id]:
    when the local store holds a playlist under [id], the first such
    playlist becomes the playlist of the view, its tags the selected tags,
    and the spinner is dropped, the current index being left as it is;
    when it holds none, an error toast is shown and the page navigates to
    [/my-playlists], the playlist and the loading flag staying as they
    were. *)
Theorem load_from_local_store (id : string) (answers : Fetched) (p : Page) :
  truthy (userId (ui p)) = false ->
  id <> EmptyString ->
  let p' := exec (loadEffect extractVideoId (Some id) answers) p in
  (forall found,
     findPlaylist id (storage (ui p)) = Some found ->
     playlist (ui p') = Some found
     /\ selectedTags (ui p') = pl_tags found
     /\ isLoading (ui p') = false
     /\ currentReelIndex (ui p') = currentReelIndex (ui p)
     /\ log (ui p') = log (ui p)
     /\ navigations p' = navigations p)
  /\ (findPlaylist id (storage (ui p)) = None ->
      playlist (ui p') = playlist (ui p)
      /\ isLoading (ui p') = isLoading (ui p)
      /\ logged (ui p) (ui p') [ToastError "Playlist not found"]
      /\ navigations p' = (navigations p ++ ["/my-playlists"])%list).
Proof.
  intros Hm Hid. cbv zeta.
  unfold loadEffect, exec.
  destruct id as [|c id]; [congruence|]. cbn [truthy negb opt_or_else].
  rewrite Hm. split.
  - intros found Hf. run_view. rewrite Hf. run_view. now repeat split.
  - intros Hf. run_view. rewrite Hf. run_view. now repeat split.
Qed.

(** X11. In local mode, from a view whose playlist is the one stored
    under its identifier, after any sequence of actions a reload from the
    local store gives back the very playlist the view has in memory. *)
Theorem reload_gives_memory (key : string) (l : list Action) (s : State)
    (answers : Fetched) :
  localView key s ->
  key <> EmptyString ->
  let s' := acts detectPlatform extractAuthor extractVideoId l s in
  playlist (ui (exec (loadEffect extractVideoId (Some key) answers)
                     (pageOf s')))
  = playlist s'.
Proof.
  intros Hv Hkey s'.
  destruct (local_store_follows_memory detectPlatform extractAuthor
              extractVideoId key l s Hv)
    as ((Hm & (pl & Hp & Hid) & Hsync) & _).
  fold s' in Hm, Hp, Hsync.
  assert (Hfind : findPlaylist key (storage (ui (pageOf s'))) = Some pl).
  { unfold findPlaylist. rewrite <- Hid. now apply Hsync. }
  destruct (load_from_local_store key answers (pageOf s') Hm Hkey)
    as [Hfound _].
  destruct (Hfound pl Hfind) as [Hp' _]. now rewrite Hp', Hp.
Qed.

(** X12. When any request of [fetchPlaylist] fails, the playlist, the
    current index, the play intent and the selected tags stay as they
    were, an error toast is shown, the page navigates to [/my-playlists]
    and the spinner is dropped. *)
Theorem fetchPlaylist_failure (answers : Fetched) (p : Page) :
  fetchFailed answers ->
  let p' := exec (fetchPlaylist extractVideoId answers) p in
  ui p' = reported (ui p) false [ConsoleError "Error fetching playlist:";
                                 ToastError "Failed to load playlist"]
  /\ navigations p' = (navigations p ++ ["/my-playlists"])%list.
Proof.
  unfold fetchFailed, relationsOf, fetchPlaylist, exec, reported.
  destruct answers as [[pd pe] [rd re] [ld le] [td te]].
  cbn [playlistAnswer reelsAnswer relationsAnswer tagsAnswer data error].
  intros Hfail; cbv zeta.
  destruct pe, re, le, ld as [[|x ld]|], te, rd, pd;
    run_view; cbn [List.length Z.of_nat Z.gtb Z.compare]; run_view;
    rewrite <- ?app_assoc; try (split; reflexivity);
    exfalso;
    destruct Hfail as [H|[H|[H|[H|[[H H']|[H|H]]]]]];
    solve [discriminate H | now apply H].
Qed.

(** X13. When every request of [fetchPlaylist] is answered, the view
    holds the fetched playlist: its reels are the rows of the store in
    their order, each with the identifier [extractVideoId] finds in its
    URL; its tags, which are also the selected tags, are the fetched ones
    (none, the tags not being requested, when there is no tag relation).
    The spinner is dropped, nothing is reported, and the current index is
    left as it was. *)
Theorem fetchPlaylist_success (answers : Fetched) (p : Page)
    (row : PlaylistRow) (rows : list ReelRow) (relations : list string) :
  playlistAnswer answers = mkAnswer (Some row) None ->
  reelsAnswer answers = mkAnswer (Some rows) None ->
  relationsAnswer answers = mkAnswer (Some relations) None ->
  (relations <> [] -> error (tagsAnswer answers) = None) ->
  let p' := exec (fetchPlaylist extractVideoId answers) p in
  playlist (ui p')
    = Some (fullPlaylist row (processReels extractVideoId rows)
                         (fetchedTags answers))
  /\ ids (reelsOf (ui p')) = map row_id rows
  /\ map reel_videoId (reelsOf (ui p'))
     = map (fun r => extractVideoId (row_url r) (row_platform r)) rows
  /\ selectedTags (ui p') = fetchedTags answers
  /\ isLoading (ui p') = false
  /\ currentReelIndex (ui p') = currentReelIndex (ui p)
  /\ log (ui p') = log (ui p)
  /\ navigations p' = navigations p.
Proof.
  intros Hpa Hra Hla Htags. cbv zeta.
  unfold fetchPlaylist, exec, fetchedTags, relationsOf.
  rewrite Hpa, Hra, Hla. cbn [data error].
  assert (Hmaps : ids (processReels extractVideoId rows) = map row_id rows
                  /\ map reel_videoId (processReels extractVideoId rows)
                     = map (fun r => extractVideoId (row_url r) (row_platform r))
                           rows).
  { unfold ids, processReels. rewrite !map_map. split; reflexivity. }
  destruct Hmaps as [Hids Hvids].
  destruct relations as [|x relations].
  - cbn [List.length Z.of_nat Z.gtb Z.compare]. run_view.
    unfold reelsOf. cbn [playlist fullPlaylist pl_reels].
    now repeat split.
  - rewrite Htags by discriminate.
    cbn [List.length Z.of_nat Z.gtb Z.compare]. run_view.
    unfold reelsOf. cbn [playlist fullPlaylist pl_reels].
    now repeat split.
Qed.

(** *** No handler lets an exception escape *)

Lemma guarded_returns {St : Type} (body : M St unit)
    (handler : Exn -> M St unit) (fin : M St unit) (s : St) :
  (forall e s', fst (handler e s') = Done tt) ->
  (forall s', fst (fin s') = Done tt) ->
  fst (finally (try_catch body handler) fin s) = Done tt.
Proof.
  intros Hh Hf. unfold finally, try_catch.
  destruct (body s) as [[[]|e] s1].
  - specialize (Hf s1). destruct (fin s1) as [[[]|e'] s2];
      [reflexivity | discriminate].
  - specialize (Hh e s1). destruct (handler e s1) as [[[]|e'] s2];
      [|discriminate].
    specialize (Hf s2). destruct (fin s2) as [[[]|e''] s3];
      [reflexivity | discriminate].
Qed.

Lemma caught_returns {St : Type} (body : M St unit)
    (handler : Exn -> M St unit) (s : St) :
  (forall e s', fst (handler e s') = Done tt) ->
  fst (try_catch body handler s) = Done tt.
Proof.
  intros Hh. unfold try_catch.
  destruct (body s) as [[[]|e] s1]; [reflexivity | apply Hh].
Qed.

Lemma act_returns (a : Action) (s : State) :
  fst (act detectPlatform extractAuthor extractVideoId a s) = Done tt.
Proof.
  destruct a; cbn [act]; try reflexivity.
  - unfold nextReel. destruct (playlist s); [|reflexivity].
    destruct (_ =? _); reflexivity.
  - unfold prevReel. destruct (playlist s); [|reflexivity].
    destruct (_ =? _); reflexivity.
  - destruct (nth_error _ n); reflexivity.
  - unfold addReel. destruct (playlist s); [|reflexivity].
    destruct (negb _); [reflexivity|].
    destruct (detectPlatform (newReelUrl s)) as [[|c platform]|];
      [reflexivity | | reflexivity].
    unfold bind at 1. cbn [setIsLoading modify].
    now apply guarded_returns.
  - unfold removeReel. destruct (playlist s); [|reflexivity].
    unfold bind at 1. cbn [setIsLoading modify].
    now apply guarded_returns.
  - unfold updatePlaylistTags. destruct (playlist s); [|reflexivity].
    destruct (negb _); [reflexivity|].
    unfold bind at 1. cbn [setIsLoading modify].
    now apply guarded_returns.
Qed.

Lemma act_idle (a : Action) (s : State) :
  isLoading s = false ->
  isLoading (exec (act detectPlatform extractAuthor extractVideoId a) s) = false.
Proof.
  intros Hl. destruct a; cbn [act]; try exact Hl.
  - unfold nextReel, exec. destruct (playlist s); [|exact Hl].
    destruct (_ =? _); exact Hl.
  - unfold prevReel, exec. destruct (playlist s); [|exact Hl].
    destruct (_ =? _); exact Hl.
  - unfold exec. destruct (nth_error _ n); exact Hl.
  - destruct (playlist s) as [pl|] eqn:Hp;
      [|now rewrite addReel_unloaded].
    destruct (string_dec (trim (newReelUrl s)) EmptyString) as [Ht|Ht];
      [now rewrite (addReel_blank _ _ _ s pl)|].
    destruct (detectPlatform (newReelUrl s)) as [platform|] eqn:Hd;
      [|now rewrite (addReel_unclassified _ _ _ s pl) by auto].
    destruct (string_dec platform EmptyString) as [->|Hne];
      [now rewrite (addReel_unclassified _ _ _ s pl) by auto|].
    destruct (remoteMode s) eqn:Hm.
    + destruct answer as [[row|] [e|]].
      2: now rewrite (addReel_remote _ _ _ s pl platform).
      all: rewrite (addReel_remote_failed _ _ _ s pl platform); auto;
        cbn [error data]; solve [left; discriminate | right; reflexivity].
    + now rewrite (addReel_local _ _ _ s pl platform).
  - destruct (playlist s) as [pl|] eqn:Hp;
      [|now rewrite removeReel_unloaded].
    destruct (remoteMode s) eqn:Hm; [destruct deleteError as [e|]|].
    + now rewrite (removeReel_failed s pl).
    + now rewrite (removeReel_done s pl) by (auto; now right).
    + now rewrite (removeReel_done s pl) by (auto; now left).
  - destruct (updatePlaylistTags_cases s deleteError insertError)
      as [-> | [-> | (pl & Hp & ->)]]; auto.
Qed.

(** X14. No handler of the view lets an exception escape, whatever the
    store or the clipboard answers: every action, the fetch, the load
    effect and the share return normally. And an action started with the
    spinner off ends with the spinner off, the fetch always does. *)
Theorem handlers_settle :
  (forall a s,
     fst (act detectPlatform extractAuthor extractVideoId a s) = Done tt
     /\ (isLoading s = false ->
         isLoading (exec (act detectPlatform extractAuthor extractVideoId a) s)
         = false))
  /\ (forall answers p,
        fst (fetchPlaylist extractVideoId answers p) = Done tt
        /\ isLoading (ui (exec (fetchPlaylist extractVideoId answers) p)) = false)
  /\ (forall id answers p,
        fst (loadEffect extractVideoId id answers p) = Done tt)
  /\ (forall origin failure p,
        fst (sharePlaylist origin failure p) = Done tt).
Proof.
  assert (Hfetch : forall answers p,
             fst (fetchPlaylist extractVideoId answers p) = Done tt).
  { intros answers p. unfold fetchPlaylist. now apply guarded_returns. }
  split; [|split; [|split]].
  - intros a s. split; [apply act_returns | apply act_idle].
  - intros answers p. split; [apply Hfetch|].
    unfold fetchPlaylist, finally, exec.
    destruct (try_catch _ _ p) as [r p1]. reflexivity.
  - intros id answers p. unfold loadEffect.
    destruct (negb (truthy id)); [reflexivity|].
    destruct (truthy (userId (ui p))); [apply Hfetch|].
    run_view. destruct (findPlaylist _ _); reflexivity.
  - intros origin failure p. unfold sharePlaylist.
    destruct (playlist (ui p)); [|reflexivity].
    now apply caught_returns.
Qed.

(** X15. [sharePlaylist] leaves the view's playlist state alone. With a
    playlist loaded, when the copy succeeds the clipboard holds the link
    [origin/playlist/id], [isCopied] is set and success is reported; when
    it fails the clipboard and [isCopied] stay as they were and an error
    toast is shown. With no playlist it does nothing. *)
Theorem sharePlaylist_outcome (origin : string) (failure : option Exn)
    (p : Page) :
  let p' := exec (sharePlaylist origin failure) p in
  sameMemory (ui p) (ui p')
  /\ navigations p' = navigations p
  /\ (playlist (ui p) = None -> p' = p)
  /\ (forall pl,
        playlist (ui p) = Some pl ->
        (failure = None ->
           clipboard p' = Some (origin ++ "/playlist/" ++ pl_id pl)
           /\ isCopied p' = true
           /\ logged (ui p) (ui p')
                [ToastSuccess "Playlist link copied to clipboard"])
        /\ (failure <> None ->
              clipboard p' = clipboard p
              /\ isCopied p' = isCopied p
              /\ logged (ui p) (ui p')
                   [ConsoleError "Failed to copy:";
                    ToastError "Failed to copy link"])).
Proof.
  cbv zeta. unfold sharePlaylist, exec, sameMemory, logged.
  destruct (playlist (ui p)) as [pl|] eqn:Hp.
  - destruct failure as [e|]; run_view; rewrite <- ?app_assoc;
      repeat split; try discriminate; try congruence;
      intros pl' [= <-]; repeat split; congruence.
  - cbn [ret fst snd]. repeat split; congruence.
Qed.

(** X16. The reel a local add appends carries the typed URL, the
    detected platform and the fresh identifier; its title is its author,
    which is what [extractAuthor] finds or, when that is [null] or empty,
    the platform followed by [ user], and is never empty. *)
Theorem local_add_author (s : State) (pl : Playlist) (platform : string)
    (answer : Answer ReelRow) (uuid : string) (addedAt updatedAt : Date) :
  playlist s = Some pl ->
  trim (newReelUrl s) <> EmptyString ->
  detectPlatform (newReelUrl s) = Some platform ->
  platform <> EmptyString ->
  remoteMode s = false ->
  exists reel,
    reelsOf (exec (addReel detectPlatform extractAuthor extractVideoId
                           answer uuid addedAt updatedAt) s)
    = (pl_reels pl ++ [reel])%list
    /\ reel_id reel = uuid
    /\ reel_url reel = newReelUrl s
    /\ reel_platform reel = platform
    /\ reel_title reel = reel_author reel
    /\ reel_author reel <> EmptyString
    /\ (truthy (extractAuthor (newReelUrl s) platform) = true ->
        Some (reel_author reel) = extractAuthor (newReelUrl s) platform)
    /\ (truthy (extractAuthor (newReelUrl s) platform) = false ->
        reel_author reel = platform ++ " user").
Proof.
  intros Hp Ht Hd Hne Hm.
  rewrite (addReel_local detectPlatform extractAuthor extractVideoId
             s pl platform answer uuid addedAt updatedAt Hp Ht Hd Hne Hm).
  eexists. unfold reelsOf.
  cbn [playlist pl_reels with_reels with_updatedAt].
  split; [reflexivity|].
  unfold localReel, opt_or_else.
  cbn [reel_id reel_url reel_platform reel_title reel_author].
  destruct (extractAuthor (newReelUrl s) platform) as [[|c a]|];
    cbn [truthy]; repeat split; try discriminate;
    destruct platform; try congruence; discriminate.
Qed.

End LoadingProperties.

End PlaylistViewMore.

(* ================================================================== *)
(** ** Further properties of the embed resolver *)

Section PlayerMoreProperties.
Import JsString EmbeddedPlayer PlayerSpec PlayerMore.

Ltac run_resolver :=
  cbv [exec bind ret modify throw try_catch finally setEmbedUrl setError
       setShowFallback console_error handleIframeError handleIframeLoad];
  cbn [fst snd embedUrl error showFallback console].

Lemma iframe_event_keeps_flag (e : Event) (s : State) :
  iframeEvent e = true -> showFallback s = true ->
  showFallback (exec (handle e) s) = true
  /\ embedUrl (exec (handle e) s) = embedUrl s.
Proof.
  intros He Hf. destruct e; [discriminate | |];
    cbn [handle]; run_resolver; auto.
Qed.

Lemma run_keeps_flag (evs : list Event) (s : State) :
  forallb iframeEvent evs = true -> showFallback s = true ->
  showFallback (run evs s) = true /\ embedUrl (run evs s) = embedUrl s.
Proof.
  revert s. induction evs as [|e evs IH]; intros s Hall Hs; [now split|].
  cbn [forallb] in Hall. apply andb_prop in Hall. destruct Hall as [He Hall].
  destruct (iframe_event_keeps_flag e s He Hs) as [Hf Hu].
  cbn [run fold_left]. destruct (IH _ Hall Hf) as [Hf' Hu'].
  split; [exact Hf'|]. unfold run in Hu'. now rewrite Hu'.
Qed.

(** X17. Once the iframe has failed to load, the component shows the
    fallback card of the reel, not the message of the failure, and keeps
    showing it through any later load or failure the iframe reports; only
    a change of reel can bring an iframe back. *)
Theorem iframe_failure_shows_fallback (reel : ReelItem) (s : State)
    (evs : list Event) :
  forallb iframeEvent evs = true ->
  let s' := run evs (exec handleIframeError s) in
  showFallback s' = true
  /\ embedUrl s' = embedUrl s
  /\ render reel s' = fallbackCard reel.
Proof.
  intros Hevs s'. subst s'.
  destruct (run_keeps_flag evs (exec handleIframeError s) Hevs)
    as [Hf Hu]; [reflexivity|].
  split; [exact Hf|]. split; [exact Hu|].
  unfold render, fallbackCard. rewrite Hf. now rewrite andb_false_r.
Qed.

(** X18. What the component shows once the resolver has run on a reel:
    the iframe exactly for an embeddable reel (an identifier that is
    neither [null] nor empty, on YouTube, Instagram, TikTok or, with an
    encodable page URL, Facebook); the error card exactly for a platform
    without a case in the [switch] or a Facebook reel with such an
    identifier whose page URL cannot be encoded; and otherwise the
    fallback card of the reel. *)
Theorem resolved_view (reel : ReelItem) (isPlaying : bool) (s : State) :
  let v := render reel (exec (generateEmbedUrl reel isPlaying) s) in
  isIframe v = embeddable reel
  /\ isErrorCard v = (negb (supported reel) || unencodable reel)
  /\ (isIframe v = false -> isErrorCard v = false -> v = fallbackCard reel).
Proof.
  destruct reel as [id title url platform author videoId addedAt].
  cbv zeta.
  unfold render, fallbackCard, embeddable, unencodable, supported, platformIs,
    generateEmbedUrl, platformSwitch, videoIdText.
  cbn [reel_platform reel_videoId reel_url reel_title reel_author existsb].
  destruct (String.eqb_spec platform "youtube") as [->|Hy];
    [|destruct (String.eqb_spec platform "instagram") as [->|Hi];
      [|destruct (String.eqb_spec platform "tiktok") as [->|Ht];
        [|destruct (String.eqb_spec platform "facebook") as [->|Hf];
          [|destruct (String.eqb_spec platform "twitter") as [->|Hw]]]]];
    cbn [String.eqb Ascii.eqb Bool.eqb orb andb negb];
    destruct videoId as [[|c v]|]; cbn [truthy andb orb negb];
    try destruct (encodeURIComponent url);
    run_resolver; cbn [truthy andb orb negb isIframe isErrorCard opt_or_else];
    repeat split; try discriminate.
Qed.

Lemma append_inv_head (a b c : string) : a ++ b = a ++ c -> b = c.
Proof.
  induction a as [|x a IH]; cbn [append]; intros H; [exact H|].
  injection H as H. now apply IH.
Qed.

(** X19. The play intent reaches the embed target of YouTube alone: for
    any other platform the resolver leaves the same state whether the
    reel is playing or not; for a YouTube reel with an identifier the two
    targets differ (autoplay 1 or 0). *)
Theorem autoplay_only_youtube (reel : ReelItem) (s : State) :
  (reel_platform reel <> "youtube" ->
     exec (generateEmbedUrl reel true) s = exec (generateEmbedUrl reel false) s)
  /\ (reel_platform reel = "youtube" ->
      truthy (reel_videoId reel) = true ->
      embedUrl (exec (generateEmbedUrl reel true) s)
      <> embedUrl (exec (generateEmbedUrl reel false) s)).
Proof.
  unfold generateEmbedUrl, platformSwitch. split.
  - intros Hne. apply String.eqb_neq in Hne. now rewrite Hne.
  - intros -> Ht. cbn [String.eqb Ascii.eqb Bool.eqb]. rewrite Ht.
    run_resolver. intros [= H].
    apply append_inv_head in H. discriminate H.
Qed.

Lemma allChars_app (ok : ascii -> bool) (a b : string) :
  allChars ok (a ++ b) = allChars ok a && allChars ok b.
Proof.
  induction a as [|c a IH]; cbn [append allChars]; [reflexivity|].
  now rewrite IH, andb_assoc.
Qed.

Lemma percentEncode_safe (c : ascii) :
  allChars uriSafe (percentEncode c) = true.
Proof. destruct c as [[] [] [] [] [] [] [] []]; reflexivity. Qed.

Lemma encodeBytes_safe (s : string) : allChars uriSafe (encodeBytes s) = true.
Proof.
  induction s as [|c s IH]; [reflexivity|].
  cbn [encodeBytes]. rewrite allChars_app, IH, andb_true_r.
  destruct (uriUnreserved c) eqn:Hc.
  - cbn [allChars]. unfold uriSafe. now rewrite Hc.
  - apply percentEncode_safe.
Qed.

Lemma safe_never_occurs (c : ascii) (s : string) :
  uriSafe c = false -> allChars uriSafe s = true -> occurs c s = false.
Proof.
  intros Hc. induction s as [|d s IH]; [reflexivity|].
  cbn [allChars occurs]. intros H. apply andb_prop in H. destruct H as [Hd Hs].
  rewrite (IH Hs), orb_false_r.
  destruct (Ascii.eqb_spec c d) as [->|]; [congruence | reflexivity].
Qed.

(** X20. The [href] parameter of a Facebook target is the page URL of
    the reel as [encodeURIComponent] writes it, with unreserved characters
    and percent signs alone: none of the characters that delimit a URL or
    its query ([& = ? # / : +], the space) occurs in it, whatever the page
    URL contains. *)
Theorem facebook_href_is_escaped (reel : ReelItem) (isPlaying : bool)
    (s : State) :
  reel_platform reel = "facebook" ->
  truthy (reel_videoId reel) = true ->
  hasLoneSurrogate (reel_url reel) = false ->
  exists href,
    encodeURIComponent (reel_url reel) = Some href
    /\ embedUrl (exec (generateEmbedUrl reel isPlaying) s)
       = Some ("https://www.facebook.com/plugins/video.php?href=" ++ href
               ++ "&show_text=false&width=560")
    /\ allChars uriSafe href = true
    /\ forall c, In c delimiters -> occurs c href = false.
Proof.
  intros Hp Ht Hs. exists (encodeBytes (reel_url reel)).
  split; [|split; [|split]].
  - unfold encodeURIComponent. now rewrite Hs.
  - unfold generateEmbedUrl, platformSwitch, encodeURIComponent.
    rewrite Hp, Ht, Hs. cbn [String.eqb Ascii.eqb Bool.eqb].
    run_resolver. reflexivity.
  - apply encodeBytes_safe.
  - intros c Hc. apply safe_never_occurs; [|apply encodeBytes_safe].
    cbn [delimiters In] in Hc.
    repeat (destruct Hc as [<-|Hc]; [reflexivity|]). contradiction.
Qed.

End PlayerMoreProperties.

(* ================================================================== *)
(** ** The further properties at sample inputs *)

Section PlaylistViewMoreSamples.
Import JsString ViewPlaylist PlaylistSpec ViewPlaylistPage Samples MoreSamples.

Ltac closed := vm_compute; repeat split; solve [reflexivity | discriminate].

Lemma view_is_local (index : Z) (playing : bool) :
  localView "p1" (view None index playing).
Proof.
  split; [reflexivity|]. split.
  - exists three. split; reflexivity.
  - intros pl [= <-]. reflexivity.
Defined.

(** Witness of X1: five presses of next from the second of three reels. *)
Lemma stepping_k_times_witness :
  currentReelIndex (times 5 nextReel (view None 1 true)) = 0.
Proof.
  assert (Hi : 0 <= currentReelIndex (view None 1 true)
               < count (view None 1 true)) by closed.
  exact (proj1 (proj1 (stepping_k_times (view None 1 true) 5 Hi))).
Defined.

(** Witness of X2. *)
Lemma next_prev_cancel_witness :
  exec prevReel (exec nextReel (view None 2 true))
  = exec (setIsPlaying false) (view None 2 true).
Proof.
  assert (Hi : 0 <= currentReelIndex (view None 2 true)
               < count (view None 2 true)) by closed.
  exact (proj1 (next_prev_cancel (view None 2 true) Hi)).
Defined.

(** Witness of X3: index 7 on three reels. *)
Lemma next_repairs_index_witness :
  0 <= currentReelIndex (exec nextReel (view None 7 true)) < 3
  /\ currentReelIndex (exec prevReel (view None 7 true)) = 6.
Proof.
  assert (HN : 0 < count (view None 7 true)) by reflexivity.
  assert (Hi : 0 <= currentReelIndex (view None 7 true)) by discriminate.
  destruct (next_repairs_index (view None 7 true) HN Hi) as [Hn Hp].
  split; [exact Hn | apply Hp; reflexivity].
Defined.

(** Witness of X4: a YouTube link added to the three reels in local mode,
    then removed. *)
Lemma add_then_remove_round_trip_witness :
  playlist (exec (removeReel "n1" None 9)
                 (exec (addReel detect author video (mkAnswer None None)
                                "n1" 1 2) (view None 1 true)))
  = Some (with_updatedAt three 9).
Proof.
  assert (Ht : trim (newReelUrl (view None 1 true)) <> EmptyString) by closed.
  assert (Hne : "youtube" <> EmptyString) by discriminate.
  assert (Hb : inBounds (view None 1 true)) by closed.
  assert (Hfresh : ~ In "n1" (ids (pl_reels three)))
    by (simpl; intuition discriminate).
  destruct (add_then_remove_round_trip detect author video
              (view None 1 true) three "youtube" (mkAnswer None None)
              "n1" 1 2 9 None eq_refl Ht eq_refl Hne Hb) as [Hlocal _].
  exact (proj1 (Hlocal eq_refl Hfresh)).
Defined.

(** Witness of X5: the first of three reels removed while the second is
    on show puts the third on show. *)
Lemma removal_shows_witness :
  currentReel (exec (removeReel "yt1" None 9) (view None 1 true)) = Some tk1.
Proof.
  assert (Hnd : NoDup (ids (pl_reels three)))
    by (repeat constructor; simpl; intuition discriminate).
  assert (Hi : 0 <= currentReelIndex (view None 1 true) < reelCount three)
    by closed.
  destruct (removal_shows (view None 1 true) three 0 yt1 None 9
              eq_refl (or_introl eq_refl) Hnd eq_refl Hi)
    as (_ & Hnext & _).
  apply Hnext; [discriminate | reflexivity].
Defined.

(** Witness of X6. *)
Lemma screen_shows_current_witness :
  exists reel,
    nth_error (reelsOf (view None 1 true)) 1 = Some reel
    /\ screen (view None 1 true) = Player reel true.
Proof.
  assert (HN : 0 < count (view None 1 true)) by reflexivity.
  assert (Hi : 0 <= currentReelIndex (view None 1 true)
               < count (view None 1 true)) by closed.
  exact (proj1 (screen_shows_current (view None 1 true) eq_refl HN) Hi).
Defined.

(** Witness of X7: the tags accepted in remote mode, ignored in local
    mode. *)
Lemma updatePlaylistTags_frame_witness :
  playlist (exec (updatePlaylistTags None None) (view (Some "u1") 0 false))
    = Some (with_tags three [mood])
  /\ exec (updatePlaylistTags None None) (view None 0 false)
     = view None 0 false.
Proof.
  split.
  - destruct (updatePlaylistTags_frame (view (Some "u1") 0 false) None None)
      as (_ & _ & _ & Hdone).
    exact (proj1 (Hdone three eq_refl eq_refl eq_refl (or_intror eq_refl))).
  - destruct (updatePlaylistTags_frame (view None 0 false) None None)
      as (_ & Hlocal & _).
    exact (Hlocal eq_refl).
Defined.

(** Witness of X8. *)
Lemma actions_keep_index_in_bounds_witness :
  inBounds (acts detect author video session (view None 2 true)).
Proof.
  assert (Hb : inBounds (view None 2 true)) by closed.
  exact (actions_keep_index_in_bounds detect author video session
           (view None 2 true) Hb).
Defined.

(** Witness of X9. *)
Lemma local_store_follows_memory_witness :
  localView "p1" (acts detect author video session (view None 2 true)).
Proof.
  exact (proj1 (local_store_follows_memory detect author video "p1" session
                  (view None 2 true) (view_is_local 2 true))).
Defined.

(** Witness of X10: a stored identifier and an unknown one, on the view
    as it is mounted. *)
Lemma load_from_local_store_witness :
  playlist (ui (exec (loadEffect video (Some "p1") answered)
                     (pageOf (mounted [three]))))
    = Some three
  /\ navigations (exec (loadEffect video (Some "zz") answered)
                       (pageOf (mounted [three])))
     = ["/my-playlists"].
Proof.
  assert (Hp1 : "p1" <> EmptyString) by discriminate.
  assert (Hzz : "zz" <> EmptyString) by discriminate.
  split.
  - destruct (load_from_local_store video "p1" answered
                (pageOf (mounted [three])) eq_refl Hp1) as [Hfound _].
    exact (proj1 (Hfound three eq_refl)).
  - destruct (load_from_local_store video "zz" answered
                (pageOf (mounted [three])) eq_refl Hzz) as [_ Hmissing].
    destruct (Hmissing eq_refl) as (_ & _ & _ & Hnav). exact Hnav.
Defined.

(** Witness of X11. *)
Lemma reload_gives_memory_witness :
  playlist (ui (exec (loadEffect video (Some "p1") answered)
                     (pageOf (acts detect author video session
                                   (view None 2 true)))))
  = playlist (acts detect author video session (view None 2 true)).
Proof.
  assert (Hp1 : "p1" <> EmptyString) by discriminate.
  exact (reload_gives_memory detect author video "p1" session
           (view None 2 true) answered (view_is_local 2 true) Hp1).
Defined.

(** Witness of X12: the tags refused. *)
Lemma fetchPlaylist_failure_witness :
  navigations (exec (fetchPlaylist video refused) (pageOf (mounted [])))
  = ["/my-playlists"].
Proof.
  assert (Hfail : fetchFailed refused).
  { right. right. right. right. left. split; discriminate. }
  exact (proj2 (fetchPlaylist_failure video refused (pageOf (mounted []))
                  Hfail)).
Defined.

(** Witness of X13. *)
Lemma fetchPlaylist_success_witness :
  ids (reelsOf (ui (exec (fetchPlaylist video answered)
                         (pageOf (mounted [])))))
  = ["r9"; "r10"].
Proof.
  assert (Htags : ["t1"] <> [] -> error (tagsAnswer answered) = None)
    by reflexivity.
  destruct (fetchPlaylist_success video answered (pageOf (mounted []))
              _ _ ["t1"] eq_refl eq_refl eq_refl Htags) as (_ & Hids & _).
  exact Hids.
Defined.

(** Witness of X14. *)
Lemma handlers_settle_witness :
  isLoading (exec (act detect author video (Remove "yt1" (Some "offline") 3))
                  (view (Some "u1") 0 true))
  = false.
Proof.
  destruct (handlers_settle detect author video) as (Hact & _).
  exact (proj2 (Hact (Remove "yt1" (Some "offline") 3)
                     (view (Some "u1") 0 true)) eq_refl).
Defined.

(** Witness of X15: the copy accepted, then refused. *)
Lemma sharePlaylist_outcome_witness :
  clipboard (exec (sharePlaylist "https://reels.example" None)
                  (pageOf (view None 0 false)))
    = Some "https://reels.example/playlist/p1"
  /\ clipboard (exec (sharePlaylist "https://reels.example" (Some TypeError))
                     (pageOf (view None 0 false)))
     = None.
Proof.
  split.
  - destruct (sharePlaylist_outcome "https://reels.example" None
                (pageOf (view None 0 false))) as (_ & _ & _ & Hout).
    exact (proj1 (proj1 (Hout three eq_refl) eq_refl)).
  - destruct (sharePlaylist_outcome "https://reels.example" (Some TypeError)
                (pageOf (view None 0 false))) as (_ & _ & _ & Hout).
    assert (Hf : Some TypeError <> None) by discriminate.
    exact (proj1 (proj2 (Hout three eq_refl) Hf)).
Defined.

(** Witness of X16: no author found in the link. *)
Lemma local_add_author_witness :
  exists reel,
    reelsOf (exec (addReel detect author video (mkAnswer None None) "n1" 1 2)
                  (view None 0 false))
    = [yt1; ig1; tk1; reel]
    /\ reel_author reel = "youtube user".
Proof.
  assert (Ht : trim (newReelUrl (view None 0 false)) <> EmptyString) by closed.
  assert (Hne : "youtube" <> EmptyString) by discriminate.
  destruct (local_add_author detect author video (view None 0 false) three
              "youtube" (mkAnswer None None) "n1" 1 2
              eq_refl Ht eq_refl Hne eq_refl)
    as (reel & Hreels & _ & _ & _ & _ & _ & _ & Hfallback).
  exists reel. split; [exact Hreels | exact (Hfallback eq_refl)].
Defined.

End PlaylistViewMoreSamples.

Section PlayerMoreSamples.
Import JsString EmbeddedPlayer PlayerSpec PlayerMore Samples.

(** Witness of X17: a YouTube reel whose iframe fails, then loads. *)
Lemma iframe_failure_shows_fallback_witness :
  render yt1 (run [IframeLoaded; IframeFailed]
                  (exec handleIframeError
                        (exec (generateEmbedUrl yt1 true) initial)))
  = fallbackCard yt1.
Proof.
  destruct (iframe_failure_shows_fallback yt1
              (exec (generateEmbedUrl yt1 true) initial)
              [IframeLoaded; IframeFailed] eq_refl) as (_ & _ & Hr).
  exact Hr.
Defined.

(** Witness of X18: a Twitter reel. *)
Lemma resolved_view_witness :
  render tw1 (exec (generateEmbedUrl tw1 false) initial) = fallbackCard tw1.
Proof.
  destruct (resolved_view tw1 false initial) as (_ & _ & Hf).
  exact (Hf eq_refl eq_refl).
Defined.

(** Witness of X19: an Instagram reel and a YouTube reel. *)
Lemma autoplay_only_youtube_witness :
  exec (generateEmbedUrl ig1 true) initial
    = exec (generateEmbedUrl ig1 false) initial
  /\ embedUrl (exec (generateEmbedUrl yt1 true) initial)
     <> embedUrl (exec (generateEmbedUrl yt1 false) initial).
Proof.
  assert (Hig : reel_platform ig1 <> "youtube") by discriminate.
  split.
  - exact (proj1 (autoplay_only_youtube ig1 initial) Hig).
  - exact (proj2 (autoplay_only_youtube yt1 initial) eq_refl eq_refl).
Defined.

(** Witness of X20. *)
Lemma facebook_href_is_escaped_witness :
  exists href,
    encodeURIComponent (reel_url fb1) = Some href
    /\ embedUrl (exec (generateEmbedUrl fb1 true) initial)
       = Some ("https://www.facebook.com/plugins/video.php?href=" ++ href
               ++ "&show_text=false&width=560")
    /\ allChars uriSafe href = true
    /\ forall c, In c delimiters -> occurs c href = false.
Proof.
  exact (facebook_href_is_escaped fb1 true initial eq_refl eq_refl eq_refl).
Defined.

End PlayerMoreSamples.
